(** * CRS recommender (backend/recommender.py, v3.5): assembly and ranking

    A shallow embedding of the retrieval post-processing of
    [recommender.py]: the text normaliser ([clean_text], [normalize]), the
    explanation assembler ([get_explanation]) and the related-topic ranker
    ([get_related_topics]), together with the public entry point [explain].

    Conventions of the embedding.
    - Python [str] values are [string]s of ASCII characters; the string
      methods below follow CPython on code points below 128.
    - A metadata dictionary is a record of optional fields, [None] standing
      for an absent key.
    - The vector index and the embedder are external: the result of
      [collection.query] is an argument of the embedded functions.
    - [random.shuffle] is an argument too (any permutation).
    - A Python exception is the result [None] of an [option]. *)

From Stdlib Require Import ZArith QArith Ascii String List Lia Permutation.
From Stdlib Require Import Floats.SpecFloat.
From stdpp Require Import base option list gmap strings.
Import ListNotations.

Local Open Scope Z_scope.

(** ** Python string methods (ASCII) *)

Module Py.

Definition code (c : ascii) : N := N_of_ascii c.

Definition between (lo hi : N) (c : ascii) : bool :=
  ((lo <=? code c) && (code c <=? hi))%N.

Definition isupper (c : ascii) : bool := between 65 90 c.
Definition islower (c : ascii) : bool := between 97 122 c.
Definition isdigit (c : ascii) : bool := between 48 57 c.
Definition iscased (c : ascii) : bool := isupper c || islower c.

(** [str.isspace] on one character: TAB, LF, VT, FF, CR, the four
    separators FS, GS, RS, US and the space.  The same class is [\s] of
    [re] for [str] patterns, and what [strip] and [split] cut at. *)
Definition isspace (c : ascii) : bool := between 9 13 c || between 28 32 c.

Definition lower_char (c : ascii) : ascii :=
  if isupper c then ascii_of_N (code c + 32) else c.
Definition upper_char (c : ascii) : ascii :=
  if islower c then ascii_of_N (code c - 32) else c.

Fixpoint map_chars (f : ascii -> ascii) (s : string) : string :=
  match s with
  | EmptyString => EmptyString
  | String c r => String (f c) (map_chars f r)
  end.

Fixpoint filter_chars (f : ascii -> bool) (s : string) : string :=
  match s with
  | EmptyString => EmptyString
  | String c r => if f c then String c (filter_chars f r) else filter_chars f r
  end.

(** [s.lower()] *)
Definition lower (s : string) : string := map_chars lower_char s.

(** [s.capitalize()]: first character upper-cased, the rest lower-cased. *)
Definition capitalize (s : string) : string :=
  match s with
  | EmptyString => EmptyString
  | String c r => String (upper_char c) (lower r)
  end.

(** [s.title()]: a cased character is upper-cased when the character
    before it is not cased, lower-cased otherwise. *)
Fixpoint title_go (prev_cased : bool) (s : string) : string :=
  match s with
  | EmptyString => EmptyString
  | String c r =>
      String (if prev_cased then lower_char c else upper_char c)
             (title_go (iscased c) r)
  end.
Definition title (s : string) : string := title_go false s.

Fixpoint interleave (new s : string) : string :=
  match s with
  | EmptyString => new
  | String c r => new +:+ String c (interleave new r)
  end.

(** [s.replace(old, new)]: leftmost occurrences, not overlapping.  [skip]
    counts the characters of a matched occurrence still to be dropped. *)
Fixpoint replace_go (old new : string) (skip : nat) (s : string) : string :=
  match s with
  | EmptyString => EmptyString
  | String c r =>
      match skip with
      | S k => replace_go old new k r
      | O =>
          if String.prefix old s
          then new +:+ replace_go old new (String.length old - 1) r
          else String c (replace_go old new 0 r)
      end
  end.
Definition replace (old new s : string) : string :=
  match old with
  | EmptyString => interleave new s
  | _ => replace_go old new 0 s
  end.

(** [s.lstrip()], [s.rstrip()], [s.strip()] *)
Fixpoint lstrip (s : string) : string :=
  match s with
  | EmptyString => EmptyString
  | String c r => if isspace c then lstrip r else s
  end.
Fixpoint rstrip (s : string) : string :=
  match s with
  | EmptyString => EmptyString
  | String c r =>
      match rstrip r with
      | EmptyString => if isspace c then EmptyString else String c EmptyString
      | r' => String c r'
      end
  end.
Definition strip (s : string) : string := rstrip (lstrip s).

(** [s.split()]: the maximal runs of characters that are not white space. *)
Fixpoint split (s : string) : list string :=
  match s with
  | EmptyString => []
  | String c r =>
      if isspace c then split r
      else match r with
           | EmptyString => [String c EmptyString]
           | String d _ =>
               if isspace d then String c EmptyString :: split r
               else match split r with
                    | w :: ws => String c w :: ws
                    | [] => [String c EmptyString]
                    end
           end
  end.

(** [sep.join(parts)] *)
Fixpoint join (sep : string) (parts : list string) : string :=
  match parts with
  | [] => EmptyString
  | [p] => p
  | p :: ps => p +:+ sep +:+ join sep ps
  end.

(** [re.sub(r"\(.*?\)", "", s)].  At an opening parenthesis the lazy
    [.*?] runs to the first closing one, and fails at a line feed, which
    [.] does not match; the scan then resumes one character further. *)
Fixpoint find_close (s : string) : option nat :=
  match s with
  | EmptyString => None
  | String c r =>
      if Ascii.eqb c ")" then Some O
      else if Ascii.eqb c "010" then None
      else S <$> find_close r
  end.
Fixpoint sub_parens_go (skip : nat) (s : string) : string :=
  match s with
  | EmptyString => EmptyString
  | String c r =>
      match skip with
      | S k => sub_parens_go k r
      | O =>
          if Ascii.eqb c "("
          then match find_close r with
               | Some n => sub_parens_go (S n) r
               | None => String c (sub_parens_go 0 r)
               end
          else String c (sub_parens_go 0 r)
      end
  end.
Definition sub_parens (s : string) : string := sub_parens_go 0 s.

(** [re.sub(r"\s+", " ", s)] *)
Fixpoint sub_spaces_go (in_run : bool) (s : string) : string :=
  match s with
  | EmptyString => EmptyString
  | String c r =>
      if isspace c
      then if in_run then sub_spaces_go true r
           else String " " (sub_spaces_go true r)
      else String c (sub_spaces_go false r)
  end.
Definition sub_spaces (s : string) : string := sub_spaces_go false s.

(** [re.sub(r"[^a-z0-9 ]", "", s)] *)
Definition keep_key_char (c : ascii) : bool :=
  islower c || isdigit c || Ascii.eqb c " ".
Definition sub_non_key (s : string) : string := filter_chars keep_key_char s.

(** [len(s.split())] as a Python integer. *)
Definition word_count (s : string) : Z := Z.of_nat (length (split s)).

End Py.

(** ** Values found in a metadata dictionary *)

Inductive pyval : Type :=
  | VNone
  | VBool (b : bool)
  | VInt (n : Z)
  | VStr (s : string).

(** One entry of [results["metadatas"][0]].  The indexers of this
    repository store [topic] and [stage] as strings. *)
Record meta : Type := Meta {
  m_topic : option string;
  m_stage : option string;
  m_summary : option pyval
}.

(** ** CONFIG *)

Definition WORDS_PER_MIN : Z := 120.
Definition TOP_K_EXPLANATION : nat := 30.
Definition TOP_K_RELATED_SEARCH : nat := 40.
Definition MAX_RELATED_TILES : nat := 12.

Definition STAGE_ORDER : list string :=
  [ "definition"; "types"; "construction"; "working";
    "formulas"; "applications"; "advantages";
    "disadvantages"; "general" ].

(** ** HELPERS *)

Definition garbage : list string :=
  [ "here's a"; "here is a"; "4-5 line";
    "for revision"; "summary"; "unfortunately";
    "the given text"; "i can provide" ].

(** The body of [clean_text] up to the two regular expressions. *)
Definition scrub (text : string) : string :=
  let text := Py.lower text in
  let text := fold_left (fun t g => Py.replace g "" t) garbage text in
  let text := Py.sub_parens text in
  Py.sub_spaces text.

Definition clean_str (text : string) : string :=
  Py.capitalize (Py.strip (scrub text)).

Definition clean_text (text : pyval) : string :=
  match text with
  | VStr s => clean_str s
  | _ => ""
  end.

Definition normalize (s : string) : string :=
  Py.strip (Py.sub_non_key (Py.lower s)).

(** ** Python floats (IEEE 754 binary64) *)

Module F64.

Definition prec : Z := 53.
Definition emax : Z := 1024.

(** [float(n)] for a Python integer: rounded to nearest even;
    [OverflowError] from [2**1024 - 2**970] on. *)
Definition of_int (n : Z) : option spec_float :=
  if Z.abs n >=? 2 ^ 1024 - 2 ^ 970 then None
  else Some (binary_normalize prec emax n 0 false).

(** The value of a decimal literal [num / den] with [num], [den] below
    [2**53]: the correctly rounded quotient. *)
Definition lit (num den : Z) : spec_float :=
  SFdiv prec emax (binary_normalize prec emax num 0 false)
                  (binary_normalize prec emax den 0 false).

Definition mul : spec_float -> spec_float -> spec_float := SFmul prec emax.
Definition add : spec_float -> spec_float -> spec_float := SFadd prec emax.

(** [int(x)]: truncation toward zero; an exception on infinities and NaN. *)
Definition to_int (x : spec_float) : option Z :=
  match x with
  | S754_zero _ => Some 0
  | S754_finite s m e =>
      let mag := if 0 <=? e then Zpos m * 2 ^ e else Zpos m / 2 ^ (- e) in
      Some (if s then - mag else mag)
  | _ => None
  end.

End F64.

(** ** Stage tables *)

Definition STAGE_TITLES : list (string * string) :=
  [ ("definition", "Definition");
    ("types", "Types");
    ("construction", "Construction / Structure");
    ("working", "Working Principle");
    ("formulas", "Key Formulas");
    ("applications", "Applications");
    ("advantages", "Advantages");
    ("disadvantages", "Limitations");
    ("general", "Additional Notes") ].

(** The weights as written in the source, in hundredths: [0.12] is
    [(12, 100)]. *)
Definition STAGE_WEIGHT : list (string * (Z * Z)) :=
  [ ("definition", (12, 100));
    ("types", (12, 100));
    ("construction", (14, 100));
    ("working", (20, 100));
    ("formulas", (14, 100));
    ("applications", (14, 100));
    ("advantages", (7, 100));
    ("disadvantages", (7, 100));
    ("general", (10, 100)) ].

(** [d.get(k)] on a constant table. *)
Fixpoint table_get {A : Type} (d : list (string * A)) (k : string) : option A :=
  match d with
  | [] => None
  | (k', v) :: d' => if String.eqb k' k then Some v else table_get d' k
  end.

(** The decimal value of a weight, and its binary64 value. *)
Definition weight_Q (w : Z * Z) : Q := Qmake (fst w) (Z.to_pos (snd w)).
Definition weight_float (w : Z * Z) : spec_float := F64.lit (fst w) (snd w).

(** [sum(STAGE_WEIGHT.values())], over the decimals and over the floats. *)
Definition weight_sum_Q : Q :=
  fold_left Qplus (map (fun kv => weight_Q (snd kv)) STAGE_WEIGHT) 0%Q.
Definition weight_sum_float : spec_float :=
  fold_left F64.add (map (fun kv => weight_float (snd kv)) STAGE_WEIGHT)
            (S754_zero false).

(** [int(max_words * STAGE_WEIGHT.get(stage, 0.1))] *)
Definition stage_budget (max_words : Z) (stage : string) : option Z :=
  let w := weight_float (default (10, 100) (table_get STAGE_WEIGHT stage)) in
  x ← F64.of_int max_words;
  F64.to_int (F64.mul x w).

(** ** The vector index *)

(** What [collection.query] returns for one query embedding:
    [results["metadatas"][0]] and [results["distances"][0]]. *)
Record query_result : Type := QueryResult {
  metadatas : list meta;
  distances : list Q
}.

Definition no_match : query_result := QueryResult [] [].

(** ** EXPLANATION *)

(** [{k: [] for k in STAGE_ORDER}] *)
Definition init_sections : gmap string (list string) :=
  list_to_map (map (fun k => (k, [])) STAGE_ORDER).

(** One turn of the loop over [metadatas]: the state is [sections] and
    [seen]. *)
Definition bucket_step (st : gmap string (list string) * gset string)
    (m : meta) : gmap string (list string) * gset string :=
  let sections := fst st in
  let seen := snd st in
  let stage := default "general" (m_stage m) in
  let summary := clean_text (default (VStr "") (m_summary m)) in
  if String.eqb summary "" then st
  else
    let key := normalize summary in
    if decide (key ∈ seen) then st
    else (<[stage := default [] (sections !! stage) ++ [summary]]> sections,
          {[key]} ∪ seen).

Definition fill_sections (ms : list meta)
    : gmap string (list string) * gset string :=
  fold_left bucket_step ms (init_sections, ∅).

(** The inner loop over the lines of one stage: the paragraph and the new
    value of [used_words]. *)
Fixpoint take_lines (stage_budget max_words : Z) (lines : list string)
    (stage_words used_words : Z) : list string * Z :=
  match lines with
  | [] => ([], used_words)
  | line :: rest =>
      let w := Py.word_count line in
      let stage_words := stage_words + w in
      let used_words := used_words + w in
      if (stage_words >=? stage_budget) || (used_words >=? max_words)
      then ([line], used_words)
      else
        let '(paragraph, used) :=
          take_lines stage_budget max_words rest stage_words used_words in
        (line :: paragraph, used)
  end.

(** A section of the output: a stage, its title and its paragraph. *)
Record section : Type := Section_ {
  sec_stage : string;
  sec_title : string;
  sec_paragraph : list string
}.

(** The loop over [STAGE_ORDER], from [used_words] on. *)
Fixpoint stage_loop (max_words : Z) (sections : gmap string (list string))
    (stages : list string) (used_words : Z) : option (list section) :=
  match stages with
  | [] => Some []
  | stage :: rest =>
      match default [] (sections !! stage) with
      | [] => stage_loop max_words sections rest used_words
      | lines =>
          budget ← stage_budget max_words stage;
          let '(paragraph, used_words) :=
            take_lines budget max_words lines 0 used_words in
          emitted ←
            match paragraph with
            | [] => Some []
            | _ => title ← table_get STAGE_TITLES stage;
                   Some [Section_ stage title paragraph]
            end;
          if used_words >=? max_words then Some emitted
          else more ← stage_loop max_words sections rest used_words;
               Some (emitted ++ more)
      end
  end.

(** The title line of a section: a line feed, the title, a colon and a
    line feed. *)
Definition header (title : string) : string :=
  String "010" (title +:+ String ":" (String "010" "")).

(** The two strings a section appends to [output]. *)
Definition section_output (s : section) : list string :=
  [ header (sec_title s);
    Py.join " " (sec_paragraph s) +:+ String "010" "" ].

Definition fallback (query : string) : string :=
  query +:+ " is an important electronics topic.".

Definition render (query : string) (secs : list section) : string :=
  match flat_map section_output secs with
  | [] => fallback query
  | output => Py.strip (Py.join (String "010" "") output)
  end.

(** The sections emitted for a result of the index. *)
Definition explanation_sections (time_minutes : Z) (ms : list meta)
    : option (list section) :=
  let max_words := time_minutes * WORDS_PER_MIN in
  stage_loop max_words (fst (fill_sections ms)) STAGE_ORDER 0.

(** The summary lines of the output, in order. *)
Definition emitted_lines (secs : list section) : list string :=
  flat_map sec_paragraph secs.

(** The body of [get_explanation] from [metadatas] on. *)
Definition assemble (query : string) (time_minutes : Z) (ms : list meta)
    : option string :=
  render query <$> explanation_sections time_minutes ms.

(** ** RELATED TOPICS *)

Definition format_topic (t : string) : string :=
  Py.title (Py.replace "_" " " t).

Definition half_tiles : nat := Nat.div MAX_RELATED_TILES 2.

(** Phase 1, over [zip(metadatas, distances)]: the state is [ranked] and
    [seen]. *)
Fixpoint relevance_pass (query : string) (ms : list (meta * Q))
    (ranked : list string) (seen : gset string)
    : list string * gset string :=
  match ms with
  | [] => (ranked, seen)
  | (m, _) :: rest =>
      let topic := default "" (m_topic m) in
      if String.eqb topic "" then relevance_pass query rest ranked seen
      else
        let topic_clean := format_topic topic in
        if String.eqb (Py.lower topic_clean) (Py.lower query)
        then relevance_pass query rest ranked seen
        else
          let '(ranked, seen) :=
            if decide (topic_clean ∈ seen) then (ranked, seen)
            else (ranked ++ [topic_clean], {[topic_clean]} ∪ seen) in
          if (half_tiles <=? length ranked)%nat then (ranked, seen)
          else relevance_pass query rest ranked seen
  end.

(** Phase 2, over the shuffled topics. *)
Fixpoint exploration_pass (query : string) (all_topics : list string)
    (ranked : list string) (seen : gset string)
    : list string * gset string :=
  match all_topics with
  | [] => (ranked, seen)
  | t :: rest =>
      let t_clean := format_topic t in
      let '(ranked, seen) :=
        if bool_decide (t_clean ∉ seen)
           && negb (String.eqb (Py.lower t_clean) (Py.lower query))
        then (ranked ++ [t_clean], {[t_clean]} ∪ seen)
        else (ranked, seen) in
      if (MAX_RELATED_TILES <=? length ranked)%nat then (ranked, seen)
      else exploration_pass query rest ranked seen
  end.

(** [set(m["topic"] for m in metadatas if "topic" in m)] *)
Definition topic_set (ms : list meta) : gset string :=
  list_to_set (omap m_topic ms).

(** The body of [get_related_topics] from [results] on. *)
Definition rank (shuffle : list string -> list string) (query : string)
    (results : query_result) : list string :=
  let '(ranked, seen) :=
    relevance_pass query (combine (metadatas results) (distances results))
                   [] ∅ in
  let all_topics := shuffle (elements (topic_set (metadatas results))) in
  fst (exploration_pass query all_topics ranked seen).

(** What is assumed of [random.shuffle]: it permutes its argument. *)
Definition is_shuffle (shuffle : list string -> list string) : Prop :=
  forall l, Permutation (shuffle l) l.

(** ** PUBLIC API *)

Record response : Type := Response {
  r_topic : string;
  r_time_minutes : Z;
  r_explanation : string;
  r_related_topics : list string
}.

Section Recommender.

(** [collection.query] on the embedding of a query text, for a number
    of results. *)
Variable collection_query : string -> nat -> query_result.
(** [random.shuffle], as the order it leaves. *)
Variable shuffle : list string -> list string.

Definition get_explanation (query : string) (time_minutes : Z)
    : option string :=
  let results := collection_query query TOP_K_EXPLANATION in
  assemble query time_minutes (metadatas results).

Definition get_related_topics (query : string) : list string :=
  let results := collection_query query TOP_K_RELATED_SEARCH in
  rank shuffle query results.

Definition explain (query : string) (time_minutes : Z) : option response :=
  explanation ← get_explanation query time_minutes;
  Some (Response query time_minutes explanation (get_related_topics query)).

End Recommender.

(** ** Definitions used to state the properties *)

(** What both passes of the ranker maintain: [ranked] has no duplicates,
    [seen] is the set of its entries, and no entry is the query up to
    case. *)
Record rank_inv (query : string) (ranked : list string) (seen : gset string)
    : Prop := {
  inv_nodup : NoDup ranked;
  inv_seen : forall x, x ∈ seen <-> x ∈ ranked;
  inv_query : Forall (fun e => Py.lower e <> Py.lower query) ranked
}.

(** The matches the first loop keeps, as pairs of a stage and a cleaned
    summary, when the keys of [seen] are already taken. *)
Fixpoint accepted (seen : gset string) (ms : list meta)
    : list (string * string) :=
  match ms with
  | [] => []
  | m :: rest =>
      let stage := default "general" (m_stage m) in
      let summary := clean_text (default (VStr "") (m_summary m)) in
      if String.eqb summary "" then accepted seen rest
      else
        let key := normalize summary in
        if decide (key ∈ seen) then accepted seen rest
        else (stage, summary) :: accepted ({[key]} ∪ seen) rest
  end.

Definition bucket_of (stage : string) (acc : list (string * string))
    : list string :=
  snd <$> filter (fun p => fst p = stage) acc.

Definition bucket (sections : gmap string (list string)) (stage : string)
    : list string :=
  default [] (sections !! stage).

(** The words of a list of lines. *)
Fixpoint sum_words (lines : list string) : Z :=
  match lines with
  | [] => 0
  | line :: rest => Py.word_count line + sum_words rest
  end.

(** The number of words of a string, by counting the characters that open
    a word; [at_start] tells that the previous character is white space
    or that there is none. *)
Fixpoint word_starts (at_start : bool) (s : string) : nat :=
  match s with
  | EmptyString => 0
  | String c r =>
      if Py.isspace c then word_starts true r
      else (if at_start then 1 else 0) + word_starts false r
  end.

(** The words of the section titles, as they are written in the output. *)
Fixpoint header_words (secs : list section) : Z :=
  match secs with
  | [] => 0
  | s :: rest => Py.word_count (header (sec_title s)) + header_words rest
  end.

(** The words of the title of a stage, as written in the output. *)
Definition stage_header_words (stage : string) : Z :=
  match table_get STAGE_TITLES stage with
  | Some title => Py.word_count (header title)
  | None => 0
  end.

Fixpoint sum_over (f : string -> Z) (l : list string) : Z :=
  match l with
  | [] => 0
  | x :: r => f x + sum_over f r
  end.

(** A weight is a finite float below one quarter. *)
Definition small_weight (w : Z * Z) : bool :=
  match weight_float w with
  | S754_finite false m e => (Zpos (digits2_pos m) + e <=? -2) && (e <=? -55)
  | _ => false
  end.

(** ** Inputs of the examples *)

Definition topic_only (t : string) : meta := Meta (Some t) None None.

Definition eight_topics : query_result :=
  QueryResult
    (map topic_only ["bjt"; "mosfet"; "diode"; "zener_diode"; "led";
                     "op_amp"; "rectifier"; "thyristor"])
    [1 # 10; 2 # 10; 3 # 10; 4 # 10; 5 # 10; 6 # 10; 7 # 10; 8 # 10]%Q.

Definition blank_topic_result : query_result :=
  QueryResult [topic_only "bjt"; topic_only ""; topic_only "led"]
              [1 # 10; 2 # 10; 3 # 10]%Q.

Definition reversed_stages : list meta :=
  [ Meta (Some "bjt") (Some "general") (Some (VStr "It has three terminals."));
    Meta (Some "bjt") (Some "working") (Some (VStr "A small base current controls a large collector current."));
    Meta (Some "bjt") (Some "definition") (Some (VStr "A BJT is a bipolar junction transistor.")) ].

Definition repeated_summary : list meta :=
  [ Meta (Some "diode") (Some "working")
      (Some (VStr "The diode conducts in one direction."));
    Meta (Some "diode") (Some "definition")
      (Some (VStr "the DIODE conducts, in one direction!"));
    Meta (Some "pn_junction") (Some "working")
      (Some (VStr "The diode conducts in one direction.")) ].

Definition stage_missing : list meta :=
  [ Meta (Some "diode") (Some "definition")
      (Some (VStr "A diode is a two-terminal device."));
    Meta (Some "diode") None
      (Some (VStr "Here is a summary: it is used in rectifiers.")) ].


Definition five_words (n : string) : string :=
  "note " +:+ n +:+ " has five words".

Definition staged (stage : string) (ns : list string) : list meta :=
  map (fun n => Meta (Some "bjt") (Some stage) (Some (VStr (five_words n)))) ns.

(** Twenty-four matches, each with a summary of five words. *)
Definition five_word_matches : list meta :=
  staged "definition" ["1"; "2"; "3"]
  ++ staged "types" ["4"; "5"; "6"]
  ++ staged "construction" ["7"; "8"; "9"; "10"]
  ++ staged "working" ["11"; "12"; "13"; "14"; "15"]
  ++ staged "formulas" ["16"; "17"; "18"; "19"]
  ++ staged "applications" ["20"; "21"; "22"; "23"]
  ++ staged "advantages" ["24"].

(** ** The indexers and the scraper: text cleaning *)

(** [clean] of [chunker.py], [chunker_v1_2.py], [chunker_incremental.py]
    and [scraper.py]: white-space runs become one space, then the ends
    are trimmed. *)
Definition clean (text : string) : string := Py.strip (Py.sub_spaces text).

(** A string of words separated by single spaces: no white space other
    than the space, none at either end, no two spaces in a row.
    [after_space] tells that the previous character is a space or that
    there is none. *)
Fixpoint spaced_words (after_space : bool) (s : string) : bool :=
  match s with
  | EmptyString => negb after_space
  | String c r =>
      if Py.isspace c
      then Ascii.eqb c " " && negb after_space && spaced_words true r
      else spaced_words false r
  end.

Definition single_spaced (s : string) : bool :=
  match s with
  | EmptyString => true
  | _ => spaced_words true s
  end.

(** Every character of a string passes a test. *)
Fixpoint all_chars (f : ascii -> bool) (s : string) : bool :=
  match s with
  | EmptyString => true
  | String c r => f c && all_chars f r
  end.

(** [s.isascii()]: every character is below 128.  On such a string the
    methods of [Py] are those of [str]. *)
Definition isascii (s : string) : bool :=
  all_chars (fun c => (nat_of_ascii c <? 128)%nat) s.

(** A word: not empty, without white space. *)
Definition is_word (w : string) : Prop :=
  w <> "" /\ all_chars (fun c => negb (Py.isspace c)) w = true.

(** The cleaned summary and the stage the assembler reads off a match. *)
Definition summary_of (m : meta) : string :=
  clean_text (default (VStr "") (m_summary m)).
Definition stage_of (m : meta) : string := default "general" (m_stage m).


(** ** The API layer: app.py *)

(** A JSON value of the request; of an array or an object only the kind
    matters to [recommend_api]. *)
Inductive json : Type :=
  | JNull
  | JBool (b : bool)
  | JInt (n : Z)
  | JFloat (x : spec_float)
  | JStr (s : string)
  | JArray
  | JObject.

(** What [request.get_json(force=True)] gives: an exception, a value that
    is not an object, or an object, of which the keys [topic] and
    [time_minutes] are read. *)
Inductive body : Type :=
  | BodyInvalid
  | BodyOther (v : json)
  | BodyObject (topic time_minutes : option json).

(** The response: the status code and the fields of the JSON object. *)
Record api_response : Type := ApiResponse {
  a_status : Z;
  a_error : option string;
  a_topic : option string;
  a_time_minutes : option Z;
  a_explanation : string;
  a_related_topics : list string
}.

Definition bad_request : api_response :=
  ApiResponse 400 (Some "Topic is required") None None "" [].

Definition server_error : api_response :=
  ApiResponse 500 (Some "Internal server error") None None "" [].

Section Api.

Variable collection_query : string -> nat -> query_result.
Variable shuffle : list string -> list string.
(** The built-in [int] on a string. *)
Variable int_of_str : string -> option Z.

(** [int(v)] *)
Definition py_int (v : json) : option Z :=
  match v with
  | JInt n => Some n
  | JBool b => Some (if b then 1 else 0)
  | JFloat x => F64.to_int x
  | JStr s => int_of_str s
  | JNull | JArray | JObject => None
  end.

(** [v.strip()]: only a string has the method. *)
Definition py_strip (v : json) : option string :=
  match v with
  | JStr s => Some (Py.strip s)
  | _ => None
  end.

Definition recommend_api (b : body) : api_response :=
  match b with
  | BodyObject topic time_minutes =>
      match py_strip (default (JStr "") topic) with
      | None => server_error
      | Some topic =>
          match py_int (default (JInt 5) time_minutes) with
          | None => server_error
          | Some time_minutes =>
              if String.eqb topic "" then bad_request
              else
                match explain collection_query shuffle topic time_minutes with
                | None => server_error
                | Some result =>
                    ApiResponse 200 None (Some topic) (Some time_minutes)
                      (r_explanation result) (r_related_topics result)
                end
          end
      end
  | BodyInvalid | BodyOther _ => server_error
  end.

End Api.


(** ** The indexers: stage detection, junk filter, chunking *)

(** [sub in s] *)
Fixpoint contains (sub s : string) : bool :=
  String.prefix sub s
  || match s with
     | EmptyString => false
     | String _ r => contains sub r
     end.

(** [any(k in t for k in keys)] *)
Definition any_in (keys : list string) (t : string) : bool :=
  existsb (fun k => contains k t) keys.

(** A chain of [if any(k in t for k in keys): return stage], closed by
    [return "general"]. *)
Fixpoint first_stage (rules : list (list string * string)) (t : string)
    : string :=
  match rules with
  | [] => "general"
  | (keys, stage) :: rest =>
      if any_in keys t then stage else first_stage rest t
  end.

(** [range(0, stop, step)]: [ValueError] for a step of zero. *)
Definition range_from_zero (stop : nat) (step : Z) : option (list nat) :=
  if step =? 0 then None
  else if step <? 0 then Some []
  else
    let n := Z.to_nat step in
    Some (map (fun k => (k * n)%nat) (seq 0 ((stop + n - 1) / n))).

(** [[cleaned[i:i+size] for i in range(0, len(cleaned), size)]] on the
    cleaned text. *)
Definition chunk_by (text : string) (size : Z) : option (list string) :=
  let cleaned := clean text in
  starts ← range_from_zero (String.length cleaned) size;
  Some (map (fun i => String.substring i (Z.to_nat size) cleaned) starts).

Module ChunkerV12.

Definition stage_rules : list (list string * string) :=
  [ (["introduction"; "overview"; "basic idea"], "introduction");
    (["is defined as"; "definition"; "can be defined"], "definition");
    (["construction"; "structure"; "diagram"; "cross section"], "construction");
    (["types of"; "classification"; "nmos"; "pmos"], "types");
    (["working"; "operation"; "operates"; "principle"], "working");
    (["formula"; "equation"; "mathematical"; "expression"], "formulas");
    (["characteristics"; "curves"; "graph"], "characteristics");
    (["application"; "used in"; "applications"], "applications");
    (["advantages"; "benefits"], "advantages");
    (["disadvantages"; "limitations"], "disadvantages") ].

Definition detect_stage (text : string) : string :=
  first_stage stage_rules (Py.lower text).

Definition junk_keywords : list string :=
  [ "references"; "bibliography"; "citation"; "acknowledgements";
    "doi:"; "isbn"; "et al."; "journal"; "vol."; "pp."; "copyright" ].

Definition is_junk_chunk (text : string) : bool :=
  let t := Py.lower text in
  if any_in junk_keywords t then true
  else if (String.length text <? 300)%nat then true
  else false.

Definition chunk_text (text : string) (chunk_size : Z) : option (list string) :=
  chunk_by text chunk_size.

End ChunkerV12.

Module ChunkerIncremental.

Definition stage_rules : list (list string * string) :=
  [ (["introduction"; "overview"; "basic idea"], "introduction");
    (["is defined as"; "definition"; "can be defined"], "definition");
    (["construction"; "structure"; "diagram"], "construction");
    (["types of"; "classification"; "nmos"; "pmos"], "types");
    (["working"; "operation"; "principle"], "working");
    (["formula"; "equation"], "formulas");
    (["characteristics"; "curves"], "characteristics");
    (["application"; "used in"], "applications");
    (["advantages"; "benefits"], "advantages");
    (["disadvantages"; "limitations"], "disadvantages") ].

Definition detect_stage (text : string) : string :=
  first_stage stage_rules (Py.lower text).

Definition junk : list string :=
  [ "references"; "bibliography"; "doi:"; "isbn"; "et al."; "journal" ].

Definition is_junk_chunk (text : string) : bool :=
  if (String.length text <? 300)%nat then true
  else any_in junk (Py.lower text).

Definition chunk_text (text : string) (size : Z) : option (list string) :=
  chunk_by text size.

End ChunkerIncremental.

Module Chunker.

Definition CHUNK_SIZE : Z := 2500.

Definition chunk_text (text : string) : option (list string) :=
  chunk_by text CHUNK_SIZE.

End Chunker.

(** The stage labels the indexers can store. *)
Definition stage_labels : list string :=
  [ "introduction"; "definition"; "construction"; "types"; "working";
    "formulas"; "characteristics"; "applications"; "advantages";
    "disadvantages"; "general" ].


(** ** Topic names: from the scraper to the indexers *)

Module Scraper.

(** [topic.lower().replace(' ', '_').replace('-', '_')] *)
Definition slug (topic : string) : string :=
  Py.replace "-" "_" (Py.replace " " "_" (Py.lower topic)).

(** The name of the file [scrape_topic] writes. *)
Definition file_name (topic : string) : string :=
  "raw_" +:+ slug topic +:+ ".txt".

Definition OUTPUT_DIR : string := "db/raw/".

(** [os.path.join(OUTPUT_DIR, filename)]: the directory ends in a
    separator and the file name, which starts with "raw_", is not
    absolute. *)
Definition file_path (topic : string) : string :=
  OUTPUT_DIR +:+ file_name topic.

End Scraper.

(** [os.path.basename(f)] (POSIX): what follows the last "/" of the
    path. *)
Fixpoint basename (path : string) : string :=
  match path with
  | EmptyString => EmptyString
  | String _ rest => if contains "/" path then basename rest else path
  end.

(** The replacements [load_raw_text] (and [load_raw_files]) make in the
    base name of a file. *)
Definition topic_of_file (base_name : string) : string :=
  Py.replace ".txt" "" (Py.replace "raw_" "" base_name).

(** [os.path.basename(f).replace("raw_", "").replace(".txt", "")]: the
    topic read off a path of the raw directory. *)
Definition loaded_topic (path : string) : string :=
  topic_of_file (basename path).

(** The character a topic character ends as in a tile, up to case. *)
Definition tile_char (c : ascii) : ascii :=
  if Ascii.eqb c "-" || Ascii.eqb c "_" then " "%char else Py.lower_char c.

(** Case analysis on the character comparisons of [String.prefix]. *)
Ltac split_chars :=
  repeat (match goal with
          | |- context [ascii_dec ?a ?b] => destruct (ascii_dec a b)
          | H : context [ascii_dec ?a ?b] |- _ => destruct (ascii_dec a b)
          end;
          try discriminate; subst; cbn [String.prefix] in *).


(** ** The indexers: what is stored *)

(** The metadata [chunker.py] stores for one topic: the main loop
    summarises the first chunks only, [build_vector_db] skips a chunk
    whose embedding fails, and no stage is stored.  [summarize] stands
    for the model's answer and [embeds] for the success of [embed]. *)
Definition MAX_SUMMARIES_PER_TOPIC : nat := 10.

Definition index_topic_v1_1 (summarize : string -> string)
    (embeds : string -> bool) (topic text : string) : option (list meta) :=
  parts ← Chunker.chunk_text text;
  Some (omap (fun ip : nat * string =>
                let summary :=
                  if (fst ip <? MAX_SUMMARIES_PER_TOPIC)%nat
                  then summarize (snd ip)
                  else "Summary skipped (beyond limit)." in
                if embeds (snd ip)
                then Some (Meta (Some topic) None (Some (VStr summary)))
                else None)
             (combine (seq 0 (length parts)) parts)).

(** The incremental indexer.  [summarize] stands for the model's answer
    to a chunk and its stage. *)
Section Incremental.

Variable summarize : string -> string -> string.

(** The metadata added for the chunks of a new topic. *)
Definition index_chunks (topic text : string) : option (list meta) :=
  chunks ← ChunkerIncremental.chunk_text text 1200;
  Some (map (fun chunk =>
               let stage := ChunkerIncremental.detect_stage chunk in
               let summary :=
                 if ChunkerIncremental.is_junk_chunk chunk
                 then "Content skipped."
                 else summarize chunk stage in
               Meta (Some topic) (Some stage) (Some (VStr summary)))
            chunks).

(** [existing_topics]: [m["topic"]] of every stored metadata; [KeyError]
    when one has no topic. *)
Fixpoint existing_topics (collection : list meta) : option (gset string) :=
  match collection with
  | [] => Some ∅
  | m :: rest =>
      t ← m_topic m;
      more ← existing_topics rest;
      Some ({[t]} ∪ more)
  end.

(** The loop over the items of [raw_topics], in the order of the dict: a
    topic already there is skipped. *)
Fixpoint add_new (existing : gset string) (raw : list (string * string))
    : option (list meta) :=
  match raw with
  | [] => Some []
  | (topic, text) :: rest =>
      if decide (topic ∈ existing) then add_new existing rest
      else
        new ← index_chunks topic text;
        more ← add_new existing rest;
        Some (new ++ more)
  end.

(** One run of the script on a collection and the raw files: the
    collection afterwards. *)
Definition run_incremental (collection : list meta)
    (raw : list (string * string)) : option (list meta) :=
  existing ← existing_topics collection;
  added ← add_new existing raw;
  Some (collection ++ added).

End Incremental.


(** ** What the ranker computes *)

(** The first occurrences of the entries of a list that are not in
    [seen]. *)
Fixpoint first_new (seen : gset string) (l : list string) : list string :=
  match l with
  | [] => []
  | x :: r =>
      if decide (x ∈ seen) then first_new seen r
      else x :: first_new ({[x]} ∪ seen) r
  end.

(** The formatted topics that are not the query up to case. *)
Definition tiles (query : string) (topics : list string) : list string :=
  filter (fun e => Py.lower e <> Py.lower query) (format_topic <$> topics).

(** The topics the relevance pass reads: those of the zipped matches that
    are there and not empty. *)
Definition ranked_topics (ms : list (meta * Q)) : list string :=
  filter (fun t => t <> "") ((fun md => default "" (m_topic (fst md))) <$> ms).

(** * Properties *)

(** ** Checks of the embedding on concrete values *)

Example clean_text_ex1 :
  clean_text (VStr "Here's a summary:  The  DIODE (see fig. 2) conducts
 one way. ") = ": the diode conducts one way.".
Proof. vm_compute. reflexivity. Qed.

Example lit_one_tenth :
  F64.lit 1 10 = S754_finite false 7205759403792794 (-56).
Proof. vm_compute. reflexivity. Qed.

Example of_int_overflow_edge :
  binary_normalize 53 1024 (2 ^ 1024 - 2 ^ 970) 0 false = S754_infinity false
  /\ binary_normalize 53 1024 (2 ^ 1024 - 2 ^ 970 - 1) 0 false
     = S754_finite false 9007199254740991 971.
Proof. vm_compute. split; reflexivity. Qed.

Example stage_budget_120 :
  map (stage_budget 120) STAGE_ORDER =
  map Some [14; 14; 16; 24; 16; 16; 8; 8; 12].
Proof. vm_compute. reflexivity. Qed.

(** ** The stage weights *)

(** C1 (as the code has it): the nine weights of [STAGE_WEIGHT], one per
    stage of [STAGE_ORDER], sum to 1.10 as decimals.  Their binary64 sum,
    added in the order of the table, is just above 1.1: it is
    [4953959590107547 * 2^-52] (1.1000000000000003), the float next
    after the one of the literal [1.1]; so it is above 1.0 as well. *)
Theorem stage_weight_sum :
  map fst STAGE_WEIGHT = STAGE_ORDER
  /\ (weight_sum_Q == 11 # 10)%Q
  /\ SFcompare weight_sum_float (F64.lit 1 1) = Some Gt
  /\ SFcompare weight_sum_float (F64.lit 11 10) = Some Gt
  /\ F64.lit 11 10 = S754_finite false 4953959590107546 (-52)
  /\ weight_sum_float = S754_finite false 4953959590107547 (-52).
Proof. vm_compute. repeat split; reflexivity. Qed.

(** C1, refuted as stated: the weights do not sum to 1.0, neither as
    decimals nor as floats. *)
Lemma stage_weight_sum_not_one :
  ~ (weight_sum_Q == 1)%Q /\ weight_sum_float <> F64.lit 1 1.
Proof. split; vm_compute; discriminate. Qed.

(** ** The text normaliser *)

Lemma clean_str_empty (s : string) :
  Py.strip (scrub s) = "" -> clean_str s = "".
Proof. unfold clean_str. intros ->. reflexivity. Qed.

(** C9: [clean_text(None)] and [clean_text("")] are the empty string; so
    is [clean_text] of every value that is not a string, and of every
    string that is empty after the replacements and the trimming. *)
Theorem clean_text_empty (v : pyval) :
  match v with
  | VStr s => Py.strip (scrub s) = ""
  | _ => True
  end ->
  clean_text v = ""
  /\ clean_text VNone = "" /\ clean_text (VStr "") = "".
Proof.
  intros H. split; [| split; reflexivity].
  destruct v as [| b | n | s]; try reflexivity.
  simpl. apply clean_str_empty, H.
Qed.

Lemma clean_text_empty_witness :
  clean_text (VStr "  (For revision) SUMMARY
 ") = ""
  /\ clean_text VNone = "" /\ clean_text (VStr "") = "".
Proof.
  apply (clean_text_empty (VStr "  (For revision) SUMMARY
 ")).
  vm_compute. reflexivity.
Defined.

(** ** The related-topic ranker *)

Section Ranker.

Variable query : string.

Lemma rank_inv_nil : rank_inv query [] ∅.
Proof. split; [constructor | set_solver | constructor]. Qed.

Lemma rank_inv_snoc ranked seen x :
  rank_inv query ranked seen -> x ∉ seen ->
  Py.lower x <> Py.lower query ->
  rank_inv query (ranked ++ [x]) ({[x]} ∪ seen).
Proof.
  intros [Hnd Hs Hq] Hx Hl. split.
  - apply NoDup_app. split; [exact Hnd |]. split.
    + intros y Hy Hy'. apply list_elem_of_singleton in Hy'. subst y.
      apply Hx, Hs, Hy.
    + apply NoDup_singleton.
  - intros y. rewrite elem_of_union, elem_of_singleton, elem_of_app,
      list_elem_of_singleton, Hs. tauto.
  - apply Forall_app. split; [exact Hq |]. repeat constructor. exact Hl.
Qed.

Lemma relevance_pass_inv ms ranked seen :
  rank_inv query ranked seen ->
  rank_inv query (fst (relevance_pass query ms ranked seen))
           (snd (relevance_pass query ms ranked seen)).
Proof.
  revert ranked seen. induction ms as [| [m d] ms IH]; intros ranked seen Hinv.
  - exact Hinv.
  - cbn [relevance_pass]. destruct (String.eqb _ ""); [apply IH, Hinv |].
    destruct (String.eqb_spec (Py.lower (format_topic (default "" (m_topic m))))
                              (Py.lower query)) as [| Hne];
      [apply IH, Hinv |].
    destruct (decide _) as [Hin | Hnin].
    + destruct (_ <=? _)%nat; [exact Hinv | apply IH, Hinv].
    + pose proof (rank_inv_snoc _ _ _ Hinv Hnin Hne) as Hinv'.
      destruct (_ <=? _)%nat; [exact Hinv' | apply IH, Hinv'].
Qed.

Lemma exploration_pass_inv ts ranked seen :
  rank_inv query ranked seen ->
  rank_inv query (fst (exploration_pass query ts ranked seen))
           (snd (exploration_pass query ts ranked seen)).
Proof.
  revert ranked seen. induction ts as [| t ts IH]; intros ranked seen Hinv.
  - exact Hinv.
  - cbn [exploration_pass]. destruct (bool_decide _ && _) eqn:Hc.
    + apply andb_true_iff in Hc as [Hnin Hne].
      apply bool_decide_eq_true in Hnin.
      apply negb_true_iff in Hne.
      destruct (String.eqb_spec (Py.lower (format_topic t)) (Py.lower query))
        as [| Hne']; [discriminate |].
      pose proof (rank_inv_snoc _ _ _ Hinv Hnin Hne') as Hinv'.
      destruct (_ <=? _)%nat; [exact Hinv' | apply IH, Hinv'].
    + destruct (_ <=? _)%nat; [exact Hinv | apply IH, Hinv].
Qed.

(** Each pass stops at its cap. *)
Lemma relevance_pass_length ms ranked seen :
  (length ranked < half_tiles)%nat ->
  (length (fst (relevance_pass query ms ranked seen)) <= half_tiles)%nat.
Proof.
  revert ranked seen. induction ms as [| [m d] ms IH]; intros ranked seen Hlen.
  - simpl. lia.
  - cbn [relevance_pass]. destruct (String.eqb _ ""); [apply IH, Hlen |].
    destruct (String.eqb _ (Py.lower query)); [apply IH, Hlen |].
    destruct (decide _).
    + destruct (Nat.leb_spec half_tiles (length ranked)); [simpl; lia |].
      apply IH, Hlen.
    + destruct (Nat.leb_spec half_tiles
                  (length (ranked ++ [format_topic (default "" (m_topic m))])))
        as [Hge | Hlt].
      * simpl. rewrite length_app in *. simpl in *. lia.
      * apply IH, Hlt.
Qed.

Lemma exploration_pass_length ts ranked seen :
  (length ranked < MAX_RELATED_TILES)%nat ->
  (length (fst (exploration_pass query ts ranked seen))
   <= MAX_RELATED_TILES)%nat.
Proof.
  revert ranked seen. induction ts as [| t ts IH]; intros ranked seen Hlen.
  - simpl. lia.
  - cbn [exploration_pass]. destruct (bool_decide _ && _).
    + destruct (Nat.leb_spec MAX_RELATED_TILES
                  (length (ranked ++ [format_topic t]))) as [Hge | Hlt].
      * simpl. rewrite length_app in *. simpl in *. lia.
      * apply IH, Hlt.
    + destruct (Nat.leb_spec MAX_RELATED_TILES (length ranked));
        [simpl; lia | apply IH, Hlen].
Qed.

(** The exploration pass only appends. *)
Lemma exploration_pass_extends ts ranked seen :
  exists more, fst (exploration_pass query ts ranked seen) = ranked ++ more.
Proof.
  revert ranked seen. induction ts as [| t ts IH]; intros ranked seen.
  - exists []. simpl. now rewrite app_nil_r.
  - cbn [exploration_pass]. destruct (bool_decide _ && _).
    + destruct (_ <=? _)%nat.
      * now exists [format_topic t].
      * destruct (IH (ranked ++ [format_topic t])
                     ({[format_topic t]} ∪ seen)) as [more ->].
        exists (format_topic t :: more). now rewrite <- app_assoc.
    + destruct (_ <=? _)%nat; [| apply IH].
      exists []. simpl. now rewrite app_nil_r.
Qed.

(** Once the relevance pass has reached its cap on a prefix of the
    matches, the rest of the matches is not looked at. *)
Lemma relevance_pass_stops pre post ranked seen :
  (length ranked < half_tiles)%nat ->
  (half_tiles <= length (fst (relevance_pass query pre ranked seen)))%nat ->
  relevance_pass query (pre ++ post) ranked seen
  = relevance_pass query pre ranked seen.
Proof.
  revert ranked seen.
  induction pre as [| [m d] pre IH]; intros ranked seen Hlen Hcap.
  - simpl in Hcap. lia.
  - cbn [relevance_pass app] in *. destruct (String.eqb _ ""); [now apply IH |].
    destruct (String.eqb _ (Py.lower query)); [now apply IH |].
    destruct (decide _).
    + destruct (Nat.leb_spec half_tiles (length ranked));
        [reflexivity | now apply IH].
    + destruct (Nat.leb_spec half_tiles
                  (length (ranked ++ [format_topic (default "" (m_topic m))])));
        [reflexivity | now apply IH].
Qed.

(** As long as the exploration pass is below its cap after a prefix of
    the candidates, it goes on with the rest from that state. *)
Lemma exploration_pass_app pre post ranked seen :
  (length (fst (exploration_pass query pre ranked seen))
   < MAX_RELATED_TILES)%nat ->
  exploration_pass query (pre ++ post) ranked seen
  = exploration_pass query post
      (fst (exploration_pass query pre ranked seen))
      (snd (exploration_pass query pre ranked seen)).
Proof.
  revert ranked seen. induction pre as [| t pre IH]; intros ranked seen Hlen.
  - reflexivity.
  - cbn [exploration_pass app] in *. destruct (bool_decide _ && _).
    + destruct (Nat.leb_spec MAX_RELATED_TILES
                  (length (ranked ++ [format_topic t])));
        [simpl in Hlen; lia | now apply IH].
    + destruct (Nat.leb_spec MAX_RELATED_TILES (length ranked));
        [simpl in Hlen; lia | now apply IH].
Qed.

End Ranker.

Lemma format_topic_empty (t : string) : format_topic t = "" -> t = "".
Proof.
  destruct t as [| c r]; [reflexivity |].
  unfold format_topic, Py.replace. cbn [Py.replace_go].
  destruct (String.prefix _ _); discriminate.
Qed.

Lemma lower_empty (s : string) : Py.lower s = "" -> s = "".
Proof. destruct s; [reflexivity | discriminate]. Qed.

Lemma relevance_pass_nonempty query ms ranked seen :
  Forall (fun e => e <> "") ranked ->
  Forall (fun e => e <> "") (fst (relevance_pass query ms ranked seen)).
Proof.
  revert ranked seen. induction ms as [| [m d] ms IH]; intros ranked seen Hne.
  - exact Hne.
  - cbn [relevance_pass].
    destruct (String.eqb_spec (default "" (m_topic m)) "") as [| Ht];
      [apply IH, Hne |].
    destruct (String.eqb _ (Py.lower query)); [apply IH, Hne |].
    assert (Forall (fun e => e <> "")
              (ranked ++ [format_topic (default "" (m_topic m))])) as Hne'.
    { apply Forall_app. split; [exact Hne |]. repeat constructor.
      intros E. apply Ht, format_topic_empty, E. }
    destruct (decide _).
    + destruct (_ <=? _)%nat; [exact Hne | apply IH, Hne].
    + destruct (_ <=? _)%nat; [exact Hne' | apply IH, Hne'].
Qed.

Lemma exploration_pass_nonempty query ts ranked seen :
  "" ∉ ts ->
  Forall (fun e => e <> "") ranked ->
  Forall (fun e => e <> "") (fst (exploration_pass query ts ranked seen)).
Proof.
  revert ranked seen. induction ts as [| t ts IH]; intros ranked seen Hts Hne.
  - exact Hne.
  - apply not_elem_of_cons in Hts as [Ht Hts].
    cbn [exploration_pass].
    assert (Forall (fun e => e <> "") (ranked ++ [format_topic t])) as Hne'.
    { apply Forall_app. split; [exact Hne |]. repeat constructor.
      intros E. apply Ht. symmetry. apply format_topic_empty, E. }
    destruct (bool_decide _ && _).
    + destruct (_ <=? _)%nat; [exact Hne' | now apply IH].
    + destruct (_ <=? _)%nat; [exact Hne | now apply IH].
Qed.

(** C5: the list of related topics has no entry equal to the query up to
    case, at most 12 entries, and no entry twice. *)
Theorem related_topics_sound
    (collection_query : string -> nat -> query_result)
    (shuffle : list string -> list string) (query : string) :
  let related := get_related_topics collection_query shuffle query in
  Forall (fun e => Py.lower e <> Py.lower query) related
  /\ (length related <= 12)%nat
  /\ NoDup related.
Proof.
  unfold get_related_topics, rank.
  set (ms := combine _ _). set (ts := shuffle _).
  pose proof (relevance_pass_inv query ms [] ∅ (rank_inv_nil query)) as H1.
  pose proof (relevance_pass_length query ms [] ∅) as L1.
  destruct (relevance_pass query ms [] ∅) as [ranked seen]. simpl in H1, L1.
  pose proof (exploration_pass_inv query ts ranked seen H1) as [Hnd _ Hq].
  pose proof (exploration_pass_length query ts ranked seen) as L2.
  cbv zeta. split; [exact Hq |]. split; [| exact Hnd].
  apply L2. change half_tiles with 6%nat in L1.
  change MAX_RELATED_TILES with 12%nat. simpl in L1. lia.
Qed.

(** C7: the relevance pass leaves at most [MAX_RELATED_TILES // 2 = 6]
    entries, which open the returned list; once six entries are there
    after a prefix of the matches, the matches after it are not read. *)
Theorem relevance_pass_cap (shuffle : list string -> list string)
    (query : string) (results : query_result) :
  let zipped := combine (metadatas results) (distances results) in
  let first_half := fst (relevance_pass query zipped [] ∅) in
  half_tiles = 6%nat
  /\ (length first_half <= 6)%nat
  /\ (exists more, rank shuffle query results = first_half ++ more)
  /\ (forall pre post, zipped = pre ++ post ->
        length (fst (relevance_pass query pre [] ∅)) = 6%nat ->
        relevance_pass query zipped [] ∅ = relevance_pass query pre [] ∅).
Proof.
  cbv zeta. split; [reflexivity |]. split; [| split].
  - apply (relevance_pass_length query). change half_tiles with 6%nat.
    simpl. lia.
  - unfold rank. destruct (relevance_pass _ _ _ _) as [ranked seen].
    apply exploration_pass_extends.
  - intros pre post -> Hlen. apply relevance_pass_stops.
    + change half_tiles with 6%nat. simpl. lia.
    + rewrite Hlen. reflexivity.
Qed.

Lemma relevance_pass_cap_witness :
  relevance_pass "jfet"
    (combine (metadatas eight_topics) (distances eight_topics)) [] ∅
  = relevance_pass "jfet"
      (firstn 6 (combine (metadatas eight_topics) (distances eight_topics)))
      [] ∅.
Proof.
  refine (proj2 (proj2 (proj2 (relevance_pass_cap (fun l => l) "jfet"
                                 eight_topics))) _
            (skipn 6 (combine (metadatas eight_topics)
                              (distances eight_topics))) _ _).
  - reflexivity.
  - vm_compute. reflexivity.
Defined.

(** C10: a match whose topic is the empty string is skipped by the
    relevance pass but is a candidate of the exploration pass: for a
    query that is not empty and any shuffle, when the candidates before
    it leave fewer than 12 entries, the empty string is in the returned
    list. *)
Theorem empty_topic_explored (shuffle : list string -> list string)
    (query : string) (results : query_result) :
  query <> "" ->
  is_shuffle shuffle ->
  (exists m, m ∈ metadatas results /\ m_topic m = Some "") ->
  let first := relevance_pass query
                 (combine (metadatas results) (distances results)) [] ∅ in
  ("" ∉ fst first)
  /\ exists pre post,
       shuffle (elements (topic_set (metadatas results))) = pre ++ "" :: post
       /\ ("" ∉ pre)
       /\ ((length (fst (exploration_pass query pre (fst first) (snd first)))
            < MAX_RELATED_TILES)%nat ->
           "" ∈ rank shuffle query results).
Proof.
  intros Hq Hsh (m & Hm & Ht). cbv zeta.
  set (ms := combine _ _).
  pose proof (relevance_pass_inv query ms [] ∅ (rank_inv_nil query)) as I1.
  pose proof (relevance_pass_nonempty query ms [] ∅ (Forall_nil_2 _)) as N1.
  unfold rank. fold ms.
  destruct (relevance_pass query ms [] ∅) as [r1 s1]. simpl in I1, N1.
  cbn [fst snd]. split.
  { intros Hin. rewrite Forall_forall in N1. now apply (N1 "" Hin). }
  assert ("" ∈ shuffle (elements (topic_set (metadatas results)))) as Hin.
  { rewrite (Hsh _). apply elem_of_elements. unfold topic_set.
    apply elem_of_list_to_set, list_elem_of_omap. eauto. }
  apply list_elem_of_split_l in Hin as (pre & post & Hsplit & Hpre).
  exists pre, post. split; [exact Hsplit |]. split; [exact Hpre |].
  intros Hlen. rewrite Hsplit.
  rewrite (exploration_pass_app query pre ("" :: post) r1 s1 Hlen).
  pose proof (exploration_pass_inv query pre r1 s1 I1) as I2.
  pose proof (exploration_pass_nonempty query pre r1 s1 Hpre N1) as N2.
  destruct (exploration_pass query pre r1 s1) as [r2 s2]. simpl in I2, N2.
  cbn [fst snd exploration_pass].
  change (format_topic "") with "".
  assert ("" ∉ s2) as Hs2.
  { intros Hin. apply (inv_seen _ _ _ I2) in Hin.
    rewrite Forall_forall in N2. now apply (N2 "" Hin). }
  rewrite (bool_decide_eq_true_2 _ Hs2).
  destruct (String.eqb_spec (Py.lower "") (Py.lower query)) as [E | _].
  { exfalso. apply Hq, lower_empty. symmetry. exact E. }
  cbn [andb negb].
  destruct (_ <=? _)%nat.
  - cbn [fst]. apply elem_of_app. right. apply list_elem_of_singleton.
    reflexivity.
  - destruct (exploration_pass_extends query post (r2 ++ [""])
                ({[""]} ∪ s2)) as [more ->].
    apply elem_of_app. left. apply elem_of_app. right.
    apply list_elem_of_singleton. reflexivity.
Qed.

Lemma empty_topic_explored_witness :
  ("" ∉ fst (relevance_pass "diode"
               (combine (metadatas blank_topic_result)
                        (distances blank_topic_result)) [] ∅))
  /\ exists pre post,
       rev (elements (topic_set (metadatas blank_topic_result)))
       = pre ++ "" :: post
       /\ ("" ∉ pre)
       /\ ((length (fst (exploration_pass "diode" pre
                      (fst (relevance_pass "diode"
                              (combine (metadatas blank_topic_result)
                                       (distances blank_topic_result)) [] ∅))
                      (snd (relevance_pass "diode"
                              (combine (metadatas blank_topic_result)
                                       (distances blank_topic_result)) [] ∅))))
            < MAX_RELATED_TILES)%nat ->
           "" ∈ rank (@rev string) "diode" blank_topic_result).
Proof.
  apply (empty_topic_explored (@rev string) "diode" blank_topic_result).
  - discriminate.
  - intros l. symmetry. apply Permutation_rev.
  - exists (topic_only ""). split; [| reflexivity].
    apply list_elem_of_In. simpl. tauto.
Defined.

Example blank_topic_ranked :
  rank (@rev string) "diode" blank_topic_result = ["Bjt"; "Led"; ""].
Proof. vm_compute. reflexivity. Qed.

(** ** Empty results *)

Lemma stage_loop_init (max_words used_words : Z) :
  stage_loop max_words init_sections STAGE_ORDER used_words = Some [].
Proof. vm_compute. reflexivity. Qed.

Lemma assemble_no_match (query : string) (time_minutes : Z) :
  assemble query time_minutes [] = Some (fallback query).
Proof.
  unfold assemble, explanation_sections, fill_sections. cbn [fold_left fst].
  rewrite stage_loop_init. reflexivity.
Qed.

Lemma rank_no_match (shuffle : list string -> list string) (query : string)
    (results : query_result) :
  is_shuffle shuffle -> metadatas results = [] ->
  rank shuffle query results = [].
Proof.
  intros Hsh Hms. unfold rank, topic_set. rewrite Hms. cbn.
  rewrite elements_empty.
  rewrite (Permutation_nil (Permutation_sym (Hsh []))). reflexivity.
Qed.

(** C8: when the index has no match for the query, [explain] answers with
    the fallback sentence and no related topic. *)
Theorem explain_no_match (collection_query : string -> nat -> query_result)
    (shuffle : list string -> list string)
    (query : string) (time_minutes : Z) :
  is_shuffle shuffle ->
  metadatas (collection_query query TOP_K_EXPLANATION) = [] ->
  metadatas (collection_query query TOP_K_RELATED_SEARCH) = [] ->
  explain collection_query shuffle query time_minutes
  = Some (Response query time_minutes
            (query +:+ " is an important electronics topic.") []).
Proof.
  intros Hsh He Hr. unfold explain, get_explanation, get_related_topics.
  rewrite He, assemble_no_match. cbn.
  rewrite (rank_no_match shuffle query _ Hsh Hr). reflexivity.
Qed.

Lemma explain_no_match_witness :
  explain (fun _ _ => no_match) (fun l => l) "any topic" 5
  = Some (Response "any topic" 5
            "any topic is an important electronics topic." []).
Proof.
  apply (explain_no_match (fun _ _ => no_match) (fun l => l) "any topic" 5).
  - intros l. apply Permutation_refl.
  - reflexivity.
  - reflexivity.
Defined.

(** ** The explanation assembler *)

Lemma bucket_insert sections stage lines st :
  bucket (<[stage := lines]> sections) st
  = if decide (stage = st) then lines else bucket sections st.
Proof.
  unfold bucket. rewrite lookup_insert. destruct (decide _); reflexivity.
Qed.

Lemma bucket_of_cons stage st summary acc :
  bucket_of st ((stage, summary) :: acc)
  = if decide (stage = st) then summary :: bucket_of st acc
    else bucket_of st acc.
Proof.
  unfold bucket_of. rewrite filter_cons. cbn [fst].
  destruct (decide _); reflexivity.
Qed.

(** Each bucket grows by the kept summaries of its stage, in order. *)
Lemma fill_bucket ms sections seen st :
  bucket (fst (fold_left bucket_step ms (sections, seen))) st
  = bucket sections st ++ bucket_of st (accepted seen ms).
Proof.
  revert sections seen. induction ms as [| m ms IH]; intros sections seen.
  - cbn. now rewrite app_nil_r.
  - cbn [fold_left accepted]. unfold bucket_step at 2. cbn [fst snd].
    destruct (String.eqb _ ""); [apply IH |].
    destruct (decide _); [apply IH |].
    rewrite IH, bucket_insert, bucket_of_cons. fold (bucket sections).
    destruct (decide _) as [-> |]; [| reflexivity].
    now rewrite <- app_assoc.
Qed.

(** [seen] holds the keys of the kept summaries. *)
Lemma fill_seen ms sections seen :
  forall k, k ∈ snd (fold_left bucket_step ms (sections, seen))
            <-> k ∈ seen \/ k ∈ (normalize ∘ snd) <$> accepted seen ms.
Proof.
  revert sections seen. induction ms as [| m ms IH]; intros sections seen k.
  - cbn. rewrite elem_of_nil. tauto.
  - cbn [fold_left accepted]. unfold bucket_step at 2. cbn [fst snd].
    destruct (String.eqb _ ""); [apply IH |].
    destruct (decide _); [apply IH |].
    rewrite IH, fmap_cons, elem_of_cons, elem_of_union, elem_of_singleton.
    cbn. tauto.
Qed.

(** The kept summaries have pairwise different keys, none of them seen
    before. *)
Lemma accepted_keys ms seen :
  NoDup ((normalize ∘ snd) <$> accepted seen ms)
  /\ forall k, k ∈ (normalize ∘ snd) <$> accepted seen ms -> k ∉ seen.
Proof.
  revert seen. induction ms as [| m ms IH]; intros seen.
  - cbn. split; [constructor | intros k Hk; inversion Hk].
  - cbn [accepted].
    destruct (String.eqb _ ""); [apply IH |].
    destruct (decide _) as [| Hnew]; [apply IH |].
    destruct (IH ({[normalize (clean_text (default (VStr "") (m_summary m)))]}
                  ∪ seen)) as [Hnd Hfresh].
    rewrite fmap_cons. cbn [compose snd]. split.
    + constructor; [| exact Hnd].
      intros Hin. apply (Hfresh _ Hin).
      apply elem_of_union. left. now apply elem_of_singleton.
    + intros k Hk. apply elem_of_cons in Hk as [-> | Hk]; [exact Hnew |].
      intros Hseen. apply (Hfresh _ Hk). apply elem_of_union. now right.
Qed.

Lemma bucket_init st : bucket init_sections st = [].
Proof.
  unfold bucket, init_sections.
  destruct (list_to_map _ !! st) as [lines |] eqn:E; [| reflexivity].
  apply elem_of_list_to_map_2 in E.
  apply list_elem_of_In, in_map_iff in E as (k & [= _ <-] & _). reflexivity.
Qed.

Lemma fill_sections_bucket ms st :
  bucket (fst (fill_sections ms)) st = bucket_of st (accepted ∅ ms).
Proof. unfold fill_sections. now rewrite fill_bucket, bucket_init. Qed.

(** *** The loop over the lines of a stage *)

Lemma sum_words_app l1 l2 : sum_words (l1 ++ l2) = sum_words l1 + sum_words l2.
Proof.
  induction l1 as [| l l1 IH]; cbn [app sum_words]; [reflexivity | rewrite IH; lia].
Qed.

Lemma take_lines_prefix budget max_words lines stage_words used_words :
  fst (take_lines budget max_words lines stage_words used_words)
  `prefix_of` lines.
Proof.
  revert stage_words used_words.
  induction lines as [| line rest IH]; intros sw uw; cbn [take_lines].
  - cbn. reflexivity.
  - destruct (_ || _).
    + cbn. apply prefix_cons, prefix_nil.
    + specialize (IH (sw + Py.word_count line) (uw + Py.word_count line)).
      destruct (take_lines _ _ rest _ _) as [p u]. cbn in *.
      now apply prefix_cons.
Qed.

Lemma take_lines_nonempty budget max_words lines stage_words used_words :
  lines <> [] ->
  fst (take_lines budget max_words lines stage_words used_words) <> [].
Proof.
  destruct lines as [| line rest]; [congruence |]. intros _.
  cbn [take_lines]. destruct (_ || _); [discriminate |].
  destruct (take_lines _ _ rest _ _). discriminate.
Qed.

(** [used_words] grows by the words of the paragraph, and was below
    [max_words] before the last line of the paragraph was added. *)
Lemma take_lines_words budget max_words lines stage_words used_words :
  lines <> [] -> used_words < max_words ->
  let r := take_lines budget max_words lines stage_words used_words in
  snd r = used_words + sum_words (fst r)
  /\ used_words + sum_words (removelast (fst r)) < max_words.
Proof.
  revert stage_words used_words.
  induction lines as [| line rest IH]; intros sw uw Hne Hlt; [congruence |].
  cbn [take_lines].
  destruct (_ || _) eqn:Hstop.
  - cbn. split; lia.
  - apply orb_false_iff in Hstop as [_ Hu].
    destruct rest as [| l2 rest].
    + cbn. split; lia.
    + assert (uw + Py.word_count line < max_words) as Hlt' by lia.
      specialize (IH (sw + Py.word_count line) (uw + Py.word_count line)
                    ltac:(discriminate) Hlt').
      pose proof (take_lines_nonempty budget max_words (l2 :: rest)
                    (sw + Py.word_count line) (uw + Py.word_count line)
                    ltac:(discriminate)) as Hp.
      destruct (take_lines _ _ (l2 :: rest) _ _) as [p u].
      cbn [fst snd] in *. destruct IH as [-> IH2].
      destruct p as [| p0 p]; [congruence |].
      cbn [removelast sum_words] in *. split; lia.
Qed.

(** *** The loop over the stages *)

(** The two ways one turn of the loop over the stages can go. *)
Lemma stage_loop_cons max_words sections stage rest used_words secs :
  stage_loop max_words sections (stage :: rest) used_words = Some secs ->
  (bucket sections stage = []
   /\ stage_loop max_words sections rest used_words = Some secs)
  \/ exists budget title paragraph used',
       bucket sections stage <> []
       /\ stage_budget max_words stage = Some budget
       /\ take_lines budget max_words (bucket sections stage) 0 used_words
          = (paragraph, used')
       /\ paragraph <> []
       /\ table_get STAGE_TITLES stage = Some title
       /\ ((max_words <= used' /\ secs = [Section_ stage title paragraph])
           \/ (used' < max_words
               /\ exists more,
                    stage_loop max_words sections rest used' = Some more
                    /\ secs = Section_ stage title paragraph :: more)).
Proof.
  cbn [stage_loop]. fold (bucket sections stage).
  destruct (bucket sections stage) as [| l ls] eqn:Hb; [now left |].
  intros H. right.
  destruct (stage_budget max_words stage) as [budget |]; [| discriminate].
  cbn [mbind option_bind] in H.
  pose proof (take_lines_nonempty budget max_words (l :: ls) 0 used_words
                ltac:(discriminate)) as Hp.
  destruct (take_lines budget max_words (l :: ls) 0 used_words)
    as [paragraph used'] eqn:Ht.
  cbn [fst] in Hp. destruct paragraph as [| p0 p]; [congruence |].
  destruct (table_get STAGE_TITLES stage) as [title |]; [| discriminate].
  cbn [mbind option_bind] in H. exists budget, title, (p0 :: p), used'.
  split; [discriminate |]. split; [reflexivity |]. split; [exact Ht |].
  split; [discriminate |]. split; [reflexivity |].
  destruct (Z.geb_spec used' max_words) as [Hge | Hlt].
  - left. split; [lia | congruence].
  - right. split; [lia |].
    destruct (stage_loop max_words sections rest used') as [more |];
      [| discriminate].
    exists more. split; [reflexivity |]. cbn in H. congruence.
Qed.

Lemma NoDup_of_submseteq {A : Type} (l1 l2 : list A) :
  l1 ⊆+ l2 -> NoDup l2 -> NoDup l1.
Proof.
  intros Hsub Hnd. apply submseteq_Permutation in Hsub as [k Hk].
  rewrite Hk in Hnd. apply NoDup_app in Hnd. tauto.
Qed.

Lemma filter_stage_split (acc : list (string * string)) stage rest :
  stage ∉ rest ->
  filter (fun p => fst p = stage) acc ++ filter (fun p => fst p ∈ rest) acc
  ⊆+ filter (fun p => fst p ∈ stage :: rest) acc.
Proof.
  intros Hnew. induction acc as [| [st line] acc IH]; [reflexivity |].
  rewrite !filter_cons. cbn [fst].
  destruct (decide (st = stage)) as [-> | Hne].
  - destruct (decide (stage ∈ rest)); [contradiction |].
    destruct (decide (stage ∈ stage :: rest)) as [| Hn];
      [| exfalso; apply Hn; left].
    cbn [app]. now apply submseteq_skip.
  - destruct (decide (st ∈ rest)) as [Hin | Hnin].
    + destruct (decide (st ∈ stage :: rest)) as [| Hn];
        [| exfalso; apply Hn; now right].
      rewrite <- Permutation_middle. now apply submseteq_skip.
    + destruct (decide (st ∈ stage :: rest)) as [Hin' |]; [| exact IH].
      apply elem_of_cons in Hin' as [-> | Hin']; contradiction.
Qed.

(** The stages of the emitted sections follow the order of the loop, each
    with its own title. *)
Lemma stage_loop_stages max_words sections stages used_words secs :
  stage_loop max_words sections stages used_words = Some secs ->
  sec_stage <$> secs `sublist_of` stages
  /\ Forall (fun s => table_get STAGE_TITLES (sec_stage s) = Some (sec_title s))
            secs.
Proof.
  revert used_words secs.
  induction stages as [| stage rest IH]; intros used secs H.
  - cbn in H. injection H as <-. split; [reflexivity | constructor].
  - apply stage_loop_cons in H
      as [[_ H] | (budget & title & p & used' & _ & _ & _ & _ & Ht & H)].
    + destruct (IH _ _ H) as [Hs Hf]. split; [| exact Hf].
      now apply sublist_cons.
    + destruct H as [[_ ->] | (_ & more & H & ->)].
      * split.
        -- cbn. apply sublist_skip, sublist_nil_l.
        -- repeat constructor. exact Ht.
      * destruct (IH _ _ H) as [Hs Hf]. split.
        -- cbn. now apply sublist_skip.
        -- constructor; [exact Ht | exact Hf].
Qed.

(** The emitted lines are drawn, without repetition, from the kept
    summaries of the stages the loop visits. *)
Lemma stage_loop_lines max_words sections acc stages used_words secs :
  (forall st, bucket sections st = bucket_of st acc) ->
  NoDup stages ->
  stage_loop max_words sections stages used_words = Some secs ->
  emitted_lines secs ⊆+ snd <$> filter (fun p => fst p ∈ stages) acc.
Proof.
  intros Hb. revert used_words secs.
  induction stages as [| stage rest IH]; intros used secs Hnd H.
  - cbn in H. injection H as <-. apply submseteq_nil_l.
  - apply NoDup_cons in Hnd as [Hnew Hnd].
    pose proof (filter_stage_split acc stage rest Hnew) as Hsplit.
    apply (fmap_submseteq snd) in Hsplit. rewrite fmap_app in Hsplit.
    apply stage_loop_cons in H
      as [[_ H] | (budget & title & p & used' & _ & _ & Ht & _ & _ & H)].
    + etrans; [apply (IH _ _ Hnd H) |]. etrans; [| exact Hsplit].
      apply submseteq_inserts_l. reflexivity.
    + assert (p ⊆+ snd <$> filter (fun q => fst q = stage) acc) as Hp.
      { pose proof (take_lines_prefix budget max_words
                      (bucket sections stage) 0 used) as [k Hk].
        rewrite Ht in Hk. cbn [fst] in Hk. rewrite Hb in Hk.
        unfold bucket_of in Hk. rewrite Hk.
        apply submseteq_inserts_r. reflexivity. }
      destruct H as [[_ ->] | (_ & more & H & ->)].
      * cbn. rewrite app_nil_r. etrans; [exact Hp |]. etrans; [| exact Hsplit].
        apply submseteq_inserts_r. reflexivity.
      * cbn [emitted_lines flat_map sec_paragraph].
        etrans; [| exact Hsplit].
        apply submseteq_app; [exact Hp | apply (IH _ _ Hnd H)].
Qed.

Lemma STAGE_ORDER_NoDup : NoDup STAGE_ORDER.
Proof. compute_done. Qed.

(** The emitted lines have pairwise different dedup keys. *)
Lemma emitted_keys time_minutes ms secs :
  explanation_sections time_minutes ms = Some secs ->
  emitted_lines secs ⊆+ snd <$> accepted ∅ ms
  /\ NoDup (normalize <$> emitted_lines secs).
Proof.
  unfold explanation_sections. intros H.
  apply (stage_loop_lines _ _ (accepted ∅ ms)) in H;
    [| intros st; apply fill_sections_bucket | apply STAGE_ORDER_NoDup].
  assert (emitted_lines secs ⊆+ snd <$> accepted ∅ ms) as Hsub.
  { etrans; [exact H |]. apply fmap_submseteq, sublist_submseteq, sublist_filter. }
  split; [exact Hsub |].
  apply (NoDup_of_submseteq _ (normalize <$> (snd <$> accepted ∅ ms))).
  - now apply fmap_submseteq.
  - rewrite <- list_fmap_compose. apply accepted_keys.
Qed.

Lemma stage_loop_paragraphs max_words sections stages used_words secs :
  stage_loop max_words sections stages used_words = Some secs ->
  Forall (fun s => sec_paragraph s <> []
                   /\ sec_paragraph s `prefix_of` bucket sections (sec_stage s))
         secs.
Proof.
  revert used_words secs.
  induction stages as [| stage rest IH]; intros used secs H.
  - cbn in H. injection H as <-. constructor.
  - apply stage_loop_cons in H
      as [[_ H] | (budget & title & p & used' & _ & _ & Ht & Hp & _ & H)].
    + apply (IH _ _ H).
    + assert (p `prefix_of` bucket sections stage) as Hpre.
      { pose proof (take_lines_prefix budget max_words
                      (bucket sections stage) 0 used) as Hk.
        now rewrite Ht in Hk. }
      destruct H as [[_ ->] | (_ & more & H & ->)].
      * repeat constructor; assumption.
      * constructor; [split; assumption | apply (IH _ _ H)].
Qed.

(** Before the last emitted line was added, [used_words] was below
    [max_words]. *)
Lemma stage_loop_words max_words sections stages used_words secs :
  used_words < max_words ->
  stage_loop max_words sections stages used_words = Some secs ->
  emitted_lines secs = []
  \/ used_words + sum_words (removelast (emitted_lines secs)) < max_words.
Proof.
  revert used_words secs.
  induction stages as [| stage rest IH]; intros used secs Hlt H.
  - cbn in H. injection H as <-. now left.
  - apply stage_loop_cons in H
      as [[_ H] | (budget & title & p & used' & Hb & _ & Ht & Hp & _ & H)].
    + apply (IH _ _ Hlt H).
    + right.
      pose proof (take_lines_words budget max_words (bucket sections stage)
                    0 used Hb Hlt) as Hw.
      rewrite Ht in Hw. cbn [fst snd] in Hw. destruct Hw as [Hu Hw].
      destruct H as [[_ ->] | (Hlt' & more & H & ->)].
      * cbn. now rewrite app_nil_r.
      * cbn [emitted_lines flat_map sec_paragraph].
        fold (emitted_lines more).
        destruct (IH _ _ Hlt' H) as [-> | Hmore].
        -- now rewrite app_nil_r.
        -- destruct (emitted_lines more) as [| l ls] eqn:E.
           ++ now rewrite app_nil_r.
           ++ rewrite removelast_app by discriminate.
              rewrite sum_words_app. lia.
Qed.

Lemma sum_words_last lines :
  lines <> [] ->
  sum_words lines
  = sum_words (removelast lines) + Py.word_count (List.last lines "").
Proof.
  intros Hne. rewrite (app_removelast_last "" Hne) at 1.
  rewrite sum_words_app. cbn. lia.
Qed.

(** ** The assembler returns

    [stage_budget] raises only when [max_words] does not fit a float.
    The lemmas below bound the exponent of a rounded product and show
    that the budget of every stage is defined when [max_words] is below
    [2**1023] in magnitude. *)

Lemma digits2_pos_size p : digits2_pos p = Pos.size p.
Proof. induction p; cbn; congruence. Qed.

Lemma shr_1_digits r :
  0 <= shr_m r ->
  0 <= shr_m (shr_1 r)
  /\ Zdigits2 (shr_m (shr_1 r)) = Z.max 0 (Zdigits2 (shr_m r) - 1).
Proof.
  destruct r as [m rb sb]. cbn [shr_m]. intros Hm.
  destruct m as [| p | p]; [cbn; lia | | lia].
  destruct p; cbn [shr_1 shr_m Zdigits2 digits2_pos]; lia.
Qed.

Lemma iter_shr_1_digits p r :
  0 <= shr_m r ->
  0 <= shr_m (SpecFloat.iter_pos shr_1 p r)
  /\ Zdigits2 (shr_m (SpecFloat.iter_pos shr_1 p r))
     = Z.max 0 (Zdigits2 (shr_m r) - Zpos p).
Proof.
  revert r. induction p as [p IH | p IH |]; intros r Hr; cbn [SpecFloat.iter_pos].
  - destruct (shr_1_digits r Hr) as [H1 E1].
    destruct (IH _ H1) as [H2 E2]. destruct (IH _ H2) as [H3 E3].
    split; [exact H3 |]. rewrite E3, E2, E1. lia.
  - destruct (IH _ Hr) as [H2 E2]. destruct (IH _ H2) as [H3 E3].
    split; [exact H3 |]. rewrite E3, E2. lia.
  - apply shr_1_digits, Hr.
Qed.

Lemma shr_fexp_bounds m e l :
  0 <= m ->
  let r := shr_fexp 53 1024 m e l in
  0 <= shr_m (fst r)
  /\ snd r = Z.max e (fexp 53 1024 (Zdigits2 m + e))
  /\ Zdigits2 (shr_m (fst r)) + snd r <= Z.max (snd r) (Zdigits2 m + e).
Proof.
  intros Hm. unfold shr_fexp, shr.
  assert (shr_m (shr_record_of_loc m l) = m) as Em
    by (destruct l as [| []]; reflexivity).
  destruct (fexp 53 1024 (Zdigits2 m + e) - e) as [| p | p] eqn:En;
    cbn [fst snd]; rewrite ?Em.
  - split; [exact Hm |]. split; lia.
  - destruct (iter_shr_1_digits p (shr_record_of_loc m l)) as [H1 E1];
      [now rewrite Em |].
    split; [exact H1 |]. rewrite E1, Em. split; lia.
  - split; [exact Hm |]. split; lia.
Qed.

Lemma size_succ_le p : (Pos.size (Pos.succ p) <= Pos.succ (Pos.size p))%positive.
Proof.
  induction p.
  - change (Pos.succ p~1) with ((Pos.succ p)~0)%positive. cbn [Pos.size]. lia.
  - change (Pos.succ p~0) with (p~1)%positive. cbn [Pos.size]. lia.
  - vm_compute. discriminate.
Qed.

Lemma Zdigits2_succ m : 0 <= m -> Zdigits2 (m + 1) <= Zdigits2 m + 1.
Proof.
  intros Hm. destruct m as [| p | p]; [vm_compute; discriminate | | lia].
  change (Zpos p + 1) with (Zpos (p + 1)). unfold Zdigits2.
  rewrite (digits2_pos_size p), (digits2_pos_size (p + 1)), Pos.add_1_r.
  pose proof (size_succ_le p). lia.
Qed.

Lemma round_nearest_even_digits m l :
  0 <= m ->
  0 <= round_nearest_even m l
  /\ Zdigits2 (round_nearest_even m l) <= Zdigits2 m + 1.
Proof.
  intros Hm. pose proof (Zdigits2_succ m Hm).
  unfold round_nearest_even.
  destruct l as [| []]; try destruct (Z.even m); split; lia.
Qed.

(** The class and the exponent of a rounded value. *)
Lemma binary_round_aux_bounds s m e l :
  0 <= m ->
  Z.max e (Zdigits2 m + e - 52) <= 971 ->
  match binary_round_aux 53 1024 s m e l with
  | S754_zero _ => True
  | S754_finite _ m' e' =>
      e' <= 971
      /\ Zpos (digits2_pos m') + e' <= Z.max (-1073) (Z.max e (Zdigits2 m + e) + 1)
  | _ => False
  end.
Proof.
  intros Hm Hb. unfold binary_round_aux.
  pose proof (shr_fexp_bounds m e l Hm) as H1.
  destruct (shr_fexp 53 1024 m e l) as [r1 e1]. cbn [fst snd] in H1.
  destruct H1 as (Hm1 & He1 & Hd1).
  pose proof (round_nearest_even_digits (shr_m r1) (loc_of_shr_record r1) Hm1)
    as [Hm2 Hd2].
  pose proof (shr_fexp_bounds _ e1 loc_Exact Hm2) as H3.
  destruct (shr_fexp 53 1024 _ e1 loc_Exact) as [r3 e3]. cbn [fst snd] in H3.
  destruct H3 as (Hm3 & He3 & Hd3).
  unfold fexp, emin in *.
  destruct (shr_m r3) as [| m3 | m3]; [exact I | | lia].
  cbn [Zdigits2] in Hd3.
  destruct (Z.leb_spec e3 (1024 - 53)); [split; lia | lia].
Qed.

Lemma digits2_pos_lt p k :
  Zpos p < 2 ^ k -> 0 <= k -> Zpos (digits2_pos p) <= k.
Proof.
  intros Hp Hk. rewrite digits2_pos_size.
  pose proof (Pos.size_le p) as Hs.
  assert (2 ^ Zpos (Pos.size p) <= 2 * Zpos p) as Hs'.
  { change 2 with (Zpos 2) at 1. rewrite <- Pos2Z.inj_pow.
    change (2 * Zpos p) with (Zpos p~0). now apply Pos2Z.pos_le_pos. }
  assert (2 ^ Zpos (Pos.size p) < 2 ^ (k + 1)) as Hlt
    by (rewrite Z.pow_add_r, Z.pow_1_r by lia; lia).
  apply Z.pow_lt_mono_r_iff in Hlt; lia.
Qed.

Lemma digits2_pos_mul a b :
  Zpos (digits2_pos (a * b))
  <= Zpos (digits2_pos a) + Zpos (digits2_pos b).
Proof.
  apply digits2_pos_lt; [| lia].
  rewrite (digits2_pos_size a), (digits2_pos_size b).
  pose proof (Pos.size_gt a) as Ha. pose proof (Pos.size_gt b) as Hb.
  apply Pos2Z.pos_lt_pos in Ha, Hb. rewrite Pos2Z.inj_pow in Ha, Hb.
  rewrite Z.pow_add_r, Pos2Z.inj_mul by lia.
  apply Z.mul_lt_mono_nonneg; [lia | exact Ha | lia | exact Hb].
Qed.

Lemma digits2_pos_iter_xO m d :
  digits2_pos (Pos.iter xO m d) = (digits2_pos m + d)%positive.
Proof.
  induction d as [| d IH] using Pos.peano_ind.
  - cbn. lia.
  - rewrite Pos.iter_succ. cbn [digits2_pos]. rewrite IH. lia.
Qed.

Lemma shl_align_digits m e e' :
  Zpos (digits2_pos (fst (shl_align m e e'))) + snd (shl_align m e e')
  = Zpos (digits2_pos m) + e
  /\ snd (shl_align m e e') <= e.
Proof.
  unfold shl_align. destruct (e' - e) as [| d | d] eqn:E; cbn [fst snd].
  - lia.
  - lia.
  - rewrite digits2_pos_iter_xO. lia.
Qed.

(** What [float(n)] is, for an integer below [2**1023] in magnitude. *)
Lemma binary_normalize_bounds n :
  Z.abs n < 2 ^ 1023 ->
  match binary_normalize 53 1024 n 0 false with
  | S754_zero _ => True
  | S754_finite _ m e => e <= 971 /\ Zpos (digits2_pos m) + e <= 1024
  | _ => False
  end.
Proof.
  intros Hn. unfold binary_normalize.
  assert (forall s p, Zpos p < 2 ^ 1023 ->
            match binary_round 53 1024 s p 0 with
            | S754_zero _ => True
            | S754_finite _ m e => e <= 971 /\ Zpos (digits2_pos m) + e <= 1024
            | _ => False
            end) as H.
  { intros s p Hp. unfold binary_round.
    pose proof (shl_align_digits p 0
                  (fexp 53 1024 (Zpos (digits2_pos p) + 0))) as [Hd He].
    destruct (shl_align _ _ _) as [mz ez]. cbn [fst snd] in Hd, He.
    pose proof (digits2_pos_lt p 1023 Hp ltac:(lia)) as Hp'.
    pose proof (binary_round_aux_bounds s (Zpos mz) ez loc_Exact
                  ltac:(lia)) as Hb.
    cbn [Zdigits2] in Hb.
    destruct (binary_round_aux 53 1024 s (Zpos mz) ez loc_Exact);
      try (apply Hb; lia).
    destruct Hb as [Hb1 Hb2]; [lia |]. split; lia. }
  destruct n as [| p | p]; [exact I | apply H | apply H]; lia.
Qed.

Lemma table_get_In {A : Type} (d : list (string * A)) k v :
  table_get d k = Some v -> In v (map snd d).
Proof.
  induction d as [| [k' v'] d IH]; cbn; [discriminate |].
  destruct (String.eqb k' k); [intros [= ->]; now left | auto].
Qed.

Lemma stage_weight_small stage :
  small_weight (default (10, 100) (table_get STAGE_WEIGHT stage)) = true.
Proof.
  assert (forallb small_weight ((10, 100) :: map snd STAGE_WEIGHT) = true)
    as H by (vm_compute; reflexivity).
  rewrite forallb_forall in H. apply H.
  destruct (table_get STAGE_WEIGHT stage) as [w |] eqn:E; cbn [default].
  - right. eapply table_get_In, E.
  - now left.
Qed.

(** The budget of a stage is defined as long as [max_words] is below
    [2**1023] in magnitude. *)
Lemma stage_budget_total max_words stage :
  Z.abs max_words < 2 ^ 1023 -> is_Some (stage_budget max_words stage).
Proof.
  intros Hmw. unfold stage_budget, F64.of_int.
  assert (2 ^ 1023 < 2 ^ 1024 - 2 ^ 970) as Hc by (vm_compute; reflexivity).
  destruct (Z.geb_spec (Z.abs max_words) (2 ^ 1024 - 2 ^ 970)); [lia |].
  cbn [mbind option_bind].
  pose proof (binary_normalize_bounds max_words Hmw) as Hx.
  pose proof (stage_weight_small stage) as Hw. unfold small_weight in Hw.
  unfold F64.prec, F64.emax.
  destruct (binary_normalize 53 1024 max_words 0 false)
    as [sx | | | sx mx ex]; try contradiction;
    destruct (weight_float _) as [| | | [] my ey]; try discriminate.
  - cbn. eauto.
  - apply andb_true_iff in Hw as [Hw1 Hw2].
    apply Z.leb_le in Hw1, Hw2. destruct Hx as [Hx1 Hx2].
    unfold F64.mul, SFmul, F64.prec, F64.emax.
    pose proof (binary_round_aux_bounds (xorb sx false)
                  (Zpos (mx * my)) (ex + ey) loc_Exact ltac:(lia)) as Hb.
    cbn [Zdigits2] in Hb. pose proof (digits2_pos_mul mx my).
    destruct (binary_round_aux 53 1024 _ _ _ _);
      try (exfalso; apply Hb; lia); cbn; eauto.
Qed.

Lemma stage_loop_total max_words sections stages used_words :
  Forall (fun st => is_Some (stage_budget max_words st)
                    /\ is_Some (table_get STAGE_TITLES st)) stages ->
  is_Some (stage_loop max_words sections stages used_words).
Proof.
  intros H. revert used_words.
  induction H as [| stage rest [[b Hb] [t Ht]] _ IH]; intros used.
  - cbn. eauto.
  - cbn [stage_loop].
    destruct (default [] (sections !! stage)) as [| l ls]; [apply IH |].
    rewrite Hb. cbn [mbind option_bind].
    destruct (take_lines b max_words (l :: ls) 0 used) as [p u].
    rewrite Ht.
    destruct p as [| p0 p]; cbn [mbind option_bind];
      (destruct (u >=? max_words); [eauto |]);
      destruct (IH u) as [more ->]; cbn; eauto.
Qed.

(** The assembler returns a string as long as the word budget is below
    [2**1023] in magnitude. *)
Lemma assemble_total query time_minutes ms :
  Z.abs (time_minutes * 120) < 2 ^ 1023 ->
  is_Some (explanation_sections time_minutes ms)
  /\ is_Some (assemble query time_minutes ms).
Proof.
  intros H.
  assert (is_Some (explanation_sections time_minutes ms)) as [secs Hs].
  { unfold explanation_sections. apply stage_loop_total.
    apply Forall_forall. intros st Hst. split.
    - now apply stage_budget_total.
    - revert st Hst. apply Forall_forall. repeat constructor; cbn; eauto. }
  split; [eauto |]. unfold assemble. rewrite Hs. cbn. eauto.
Qed.

(** ** Order of the sections *)

(** C6: the sections of the output follow [STAGE_ORDER], whatever the
    order of the stages among the matches: their stages are a subsequence
    of [STAGE_ORDER], each under the title of its stage, and the output is
    the sections written out in that order. *)
Theorem sections_in_canonical_order (query : string) (time_minutes : Z)
    (ms : list meta) (secs : list section) :
  explanation_sections time_minutes ms = Some secs ->
  sec_stage <$> secs `sublist_of` STAGE_ORDER
  /\ Forall (fun s => table_get STAGE_TITLES (sec_stage s) = Some (sec_title s))
            secs
  /\ assemble query time_minutes ms
     = Some (match secs with
             | [] => fallback query
             | _ => Py.strip (Py.join (String "010" "")
                                      (flat_map section_output secs))
             end).
Proof.
  intros H. destruct (stage_loop_stages _ _ _ _ _ H) as [Hs Ht].
  split; [exact Hs |]. split; [exact Ht |].
  unfold assemble. rewrite H. cbn [fmap option_fmap option_map].
  destruct secs; reflexivity.
Qed.

Lemma sections_in_canonical_order_witness :
  sec_stage <$>
    [ Section_ "definition" "Definition"
        ["A bjt is a bipolar junction transistor."];
      Section_ "working" "Working Principle"
        ["A small base current controls a large collector current."];
      Section_ "general" "Additional Notes" ["It has three terminals."] ]
  `sublist_of` STAGE_ORDER.
Proof.
  refine (proj1 (sections_in_canonical_order "bjt" 5 reversed_stages _ _)).
  vm_compute. reflexivity.
Defined.

(** ** Deduplication *)

Lemma NoDup_fmap_elem_inj {A B : Type} (g : A -> B) (l : list A) x y :
  NoDup (g <$> l) -> x ∈ l -> y ∈ l -> g x = g y -> x = y.
Proof.
  intros Hnd Hx Hy Hg.
  apply list_elem_of_lookup_1 in Hx as [i Hi].
  apply list_elem_of_lookup_1 in Hy as [j Hj].
  assert ((g <$> l) !! i = Some (g x)) as Hi'
    by (rewrite list_lookup_fmap, Hi; reflexivity).
  assert ((g <$> l) !! j = Some (g x)) as Hj'
    by (rewrite list_lookup_fmap, Hj, Hg; reflexivity).
  pose proof (NoDup_lookup _ _ _ _ Hnd Hi' Hj') as ->. congruence.
Qed.

Lemma NoDup_fmap_key_once {A B : Type} `{EqDecision B} (g : A -> B)
    (l : list A) (k : B) :
  NoDup (g <$> l) -> (length (filter (fun x => g x = k) l) <= 1)%nat.
Proof.
  induction l as [| a l IH]; intros Hnd; [cbn; lia |].
  rewrite fmap_cons in Hnd. apply NoDup_cons in Hnd as [Ha Hnd].
  rewrite filter_cons. destruct (decide (g a = k)) as [Hk | _]; [| auto].
  destruct (filter (fun x => g x = k) l) as [| b r] eqn:E; [cbn; lia |].
  exfalso. apply Ha.
  assert (b ∈ filter (fun x => g x = k) l) as Hb by (rewrite E; left).
  apply list_elem_of_filter in Hb as [Hgb Hb].
  rewrite Hk, <- Hgb. now apply list_elem_of_fmap_2.
Qed.

(** No two lines of the buckets, of one stage or of two, have the same
    dedup key. *)
Lemma buckets_keys_apart ms st1 st2 i j l1 l2 :
  bucket (fst (fill_sections ms)) st1 !! i = Some l1 ->
  bucket (fst (fill_sections ms)) st2 !! j = Some l2 ->
  normalize l1 = normalize l2 ->
  st1 = st2 /\ i = j.
Proof.
  rewrite !fill_sections_bucket. unfold bucket_of.
  intros H1 H2 Hk.
  apply list_lookup_fmap_Some in H1 as (p1 & -> & H1).
  apply list_lookup_fmap_Some in H2 as (p2 & -> & H2).
  destruct (accepted_keys ms ∅) as [Hnd _].
  assert (p1 ∈ filter (fun p => fst p = st1) (accepted ∅ ms)) as Hp1
    by (eapply list_elem_of_lookup_2; eassumption).
  assert (p2 ∈ filter (fun p => fst p = st2) (accepted ∅ ms)) as Hp2
    by (eapply list_elem_of_lookup_2; eassumption).
  apply list_elem_of_filter in Hp1 as [Hs1 Hp1].
  apply list_elem_of_filter in Hp2 as [Hs2 Hp2].
  pose proof (NoDup_fmap_elem_inj _ _ _ _ Hnd Hp1 Hp2 Hk) as ->.
  assert (st1 = st2) as -> by congruence. split; [reflexivity |].
  apply NoDup_fmap_1 in Hnd.
  apply (NoDup_lookup (filter (fun p => fst p = st2) (accepted ∅ ms)) i j p2);
    [now apply NoDup_filter | assumption | assumption].
Qed.

(** C4: summaries with one dedup key are kept once for the whole request:
    no two lines of the buckets share a key, be they of one stage or of
    two, and at most one line of the output has any given key. *)
Theorem dedup_global (time_minutes : Z) (ms : list meta)
    (secs : list section) :
  explanation_sections time_minutes ms = Some secs ->
  (forall st1 st2 i j l1 l2,
     bucket (fst (fill_sections ms)) st1 !! i = Some l1 ->
     bucket (fst (fill_sections ms)) st2 !! j = Some l2 ->
     normalize l1 = normalize l2 -> st1 = st2 /\ i = j)
  /\ NoDup (normalize <$> emitted_lines secs)
  /\ forall summary,
       (length (filter (fun line => normalize line = normalize summary)
                       (emitted_lines secs)) <= 1)%nat.
Proof.
  intros H. split; [intros *; apply buckets_keys_apart |].
  destruct (emitted_keys _ _ _ H) as [_ Hnd]. split; [exact Hnd |].
  intros summary. now apply NoDup_fmap_key_once.
Qed.

Lemma dedup_global_witness :
  NoDup (normalize <$>
           emitted_lines [ Section_ "working" "Working Principle"
                             ["The diode conducts in one direction."] ]).
Proof.
  refine (proj1 (proj2 (dedup_global 5 repeated_summary _ _))).
  vm_compute. reflexivity.
Defined.

(** ** Stages outside [STAGE_ORDER] *)




Example absent_stage_in_output :
  assemble "diode" 5 stage_missing
  = Some "Definition:

A diode is a two-terminal device.


Additional Notes:

: it is used in rectifiers.".
Proof. vm_compute. reflexivity. Qed.


(** ** Counting the words of the output *)

Lemma append_nil_l (s : string) : "" +:+ s = s.
Proof. reflexivity. Qed.

Lemma append_cons (c : ascii) (s t : string) :
  String c s +:+ t = String c (s +:+ t).
Proof. reflexivity. Qed.

Lemma split_length (s : string) : length (Py.split s) = word_starts true s.
Proof.
  induction s as [| c r IH]; [reflexivity |].
  cbn [Py.split word_starts]. destruct (Py.isspace c); [exact IH |].
  destruct r as [| d r']; [reflexivity |].
  cbn [word_starts] in *. destruct (Py.isspace d) eqn:Hd.
  - cbn [length]. rewrite IH. reflexivity.
  - destruct (Py.split (String d r')) as [| w ws]; [cbn in IH; lia |].
    cbn [length] in *. lia.
Qed.

Lemma word_count_starts (s : string) :
  Py.word_count s = Z.of_nat (word_starts true s).
Proof. unfold Py.word_count. now rewrite split_length. Qed.

Lemma word_starts_app_space at_start a c b :
  Py.isspace c = true ->
  word_starts at_start (a +:+ String c b)
  = (word_starts at_start a + word_starts true b)%nat.
Proof.
  intros Hc. revert at_start. induction a as [| x a IH]; intros at_start.
  - rewrite append_nil_l. cbn [word_starts]. now rewrite Hc.
  - rewrite append_cons. cbn [word_starts].
    destruct (Py.isspace x); rewrite IH; lia.
Qed.

Lemma word_starts_lstrip s :
  word_starts true (Py.lstrip s) = word_starts true s.
Proof.
  induction s as [| c r IH]; [reflexivity |].
  cbn [Py.lstrip]. destruct (Py.isspace c) eqn:Hc; [| reflexivity].
  cbn [word_starts]. now rewrite Hc.
Qed.

Lemma word_starts_rstrip at_start s :
  word_starts at_start (Py.rstrip s) = word_starts at_start s.
Proof.
  revert at_start. induction s as [| c r IH]; intros at_start; [reflexivity |].
  cbn [Py.rstrip]. destruct (Py.rstrip r) as [| d r'] eqn:E.
  - destruct (Py.isspace c) eqn:Hc; cbn [word_starts]; rewrite Hc.
    + now rewrite <- IH.
    + now rewrite <- (IH false).
  - cbn [word_starts]. destruct (Py.isspace c).
    + now rewrite <- IH.
    + now rewrite <- (IH false).
Qed.

Lemma word_count_strip s : Py.word_count (Py.strip s) = Py.word_count s.
Proof.
  rewrite !word_count_starts. unfold Py.strip.
  now rewrite word_starts_rstrip, word_starts_lstrip.
Qed.

Lemma word_count_app_space a c b :
  Py.isspace c = true ->
  Py.word_count (a +:+ String c b) = Py.word_count a + Py.word_count b.
Proof.
  intros Hc. rewrite !word_count_starts, word_starts_app_space by exact Hc. lia.
Qed.

(** The words of a join over a white-space character are the words of
    the parts. *)
Lemma word_count_join c parts :
  Py.isspace c = true ->
  Py.word_count (Py.join (String c "") parts) = sum_words parts.
Proof.
  intros Hc. induction parts as [| p ps IH]; [reflexivity |].
  destruct ps as [| q ps].
  - cbn [Py.join sum_words]. lia.
  - change (Py.join (String c "") (p :: q :: ps))
      with (p +:+ String c (Py.join (String c "") (q :: ps))).
    rewrite word_count_app_space by exact Hc. rewrite IH. reflexivity.
Qed.

Lemma section_output_words secs :
  sum_words (flat_map section_output secs)
  = sum_words (emitted_lines secs) + header_words secs.
Proof.
  induction secs as [| s secs IH]; [reflexivity |].
  cbn [flat_map section_output app sum_words emitted_lines header_words].
  fold (emitted_lines secs). rewrite sum_words_app, IH.
  rewrite (word_count_app_space _ "010" "") by reflexivity.
  rewrite (word_count_join " ") by reflexivity.
  change (Py.word_count "") with 0. lia.
Qed.

Lemma render_words query secs :
  secs <> [] ->
  Py.word_count (render query secs)
  = sum_words (emitted_lines secs) + header_words secs.
Proof.
  intros Hne. unfold render.
  destruct (flat_map section_output secs) as [| o os] eqn:E.
  - destruct secs; [congruence | discriminate].
  - rewrite word_count_strip, (word_count_join "010") by reflexivity.
    rewrite <- E. apply section_output_words.
Qed.

Lemma sum_over_sublist f l1 l2 :
  (forall x, 0 <= f x) -> l1 `sublist_of` l2 -> sum_over f l1 <= sum_over f l2.
Proof.
  intros Hf Hsub. induction Hsub as [| x l1 l2 _ IH | x l1 l2 _ IH]; cbn.
  - lia.
  - lia.
  - specialize (Hf x). lia.
Qed.

Lemma stage_header_words_nonneg stage : 0 <= stage_header_words stage.
Proof.
  unfold stage_header_words, Py.word_count.
  destruct (table_get STAGE_TITLES stage); lia.
Qed.

Lemma header_words_stages secs :
  Forall (fun s => table_get STAGE_TITLES (sec_stage s) = Some (sec_title s))
         secs ->
  header_words secs = sum_over stage_header_words (sec_stage <$> secs).
Proof.
  induction 1 as [| s secs Hs _ IH]; [reflexivity |].
  rewrite fmap_cons. cbn [header_words sum_over]. rewrite IH.
  f_equal. unfold stage_header_words. now rewrite Hs.
Qed.

Lemma header_words_bound max_words sections used_words secs :
  stage_loop max_words sections STAGE_ORDER used_words = Some secs ->
  0 <= header_words secs <= 14.
Proof.
  intros H. destruct (stage_loop_stages _ _ _ _ _ H) as [Hsub Ht].
  rewrite (header_words_stages _ Ht). split.
  - etrans; [| apply (sum_over_sublist _ [] _ stage_header_words_nonneg),
                 sublist_nil_l]. reflexivity.
  - etrans; [apply (sum_over_sublist _ _ _ stage_header_words_nonneg Hsub) |].
    vm_compute. discriminate.
Qed.

(** ** The word budget *)

(** C3 (as the code has it): for [time_minutes > 0], the summary lines of
    the output have together fewer words than [time_minutes * 120] plus
    the words of the last line; the returned string has these words and
    those of the section titles, which are at most 14 and are not counted
    against the budget; with no section it is the fallback sentence. *)
Theorem words_within_budget (query : string) (time_minutes : Z)
    (ms : list meta) (secs : list section) :
  0 < time_minutes ->
  explanation_sections time_minutes ms = Some secs ->
  let lines := emitted_lines secs in
  sum_words lines < time_minutes * 120 + Py.word_count (List.last lines "")
  /\ 0 <= header_words secs <= 14
  /\ exists out,
       assemble query time_minutes ms = Some out
       /\ (secs = [] -> out = fallback query)
       /\ (secs <> [] ->
           Py.word_count out = sum_words lines + header_words secs).
Proof.
  intros Ht H. cbv zeta. unfold explanation_sections in H.
  change WORDS_PER_MIN with 120 in H.
  split; [| split].
  - assert (0 < time_minutes * 120) as Hmw by lia.
    destruct (stage_loop_words _ _ _ _ _ Hmw H) as [-> | Hw].
    + cbn. change (Py.word_count "") with 0. lia.
    + destruct (emitted_lines secs) as [| l ls] eqn:E.
      * cbn. change (Py.word_count "") with 0. lia.
      * rewrite (sum_words_last (l :: ls)) by discriminate. lia.
  - apply (header_words_bound _ _ _ _ H).
  - exists (render query secs). split; [| split].
    + unfold assemble, explanation_sections.
      change WORDS_PER_MIN with 120. now rewrite H.
    + intros ->. reflexivity.
    + apply render_words.
Qed.

Lemma words_within_budget_witness :
  let secs :=
    [ Section_ "definition" "Definition"
        ["A diode is a two-terminal device."];
      Section_ "general" "Additional Notes"
        [": it is used in rectifiers."] ] in
  let lines := emitted_lines secs in
  sum_words lines < 5 * 120 + Py.word_count (List.last lines "")
  /\ 0 <= header_words secs <= 14
  /\ exists out,
       assemble "diode" 5 stage_missing = Some out
       /\ (secs = [] -> out = fallback "diode")
       /\ (secs <> [] ->
           Py.word_count out = sum_words lines + header_words secs).
Proof.
  apply (words_within_budget "diode" 5 stage_missing).
  - reflexivity.
  - vm_compute. reflexivity.
Defined.

(** C3, refuted as stated: with one minute and these matches, every line
    of the output has five words, and the returned string has 131 words,
    more than [1 * 120 + 5]: the titles of the seven sections add eleven
    words to the 120 of the lines. *)
Lemma titles_exceed_budget :
  exists secs out,
    explanation_sections 1 five_word_matches = Some secs
    /\ assemble "bjt" 1 five_word_matches = Some out
    /\ Forall (fun line => Py.word_count line = 5) (emitted_lines secs)
    /\ sum_words (emitted_lines secs) = 120
    /\ Py.word_count out = 131
    /\ ~ (Py.word_count out <= 1 * 120 + 5).
Proof.
  eexists. eexists.
  split; [vm_compute; reflexivity |].
  split; [vm_compute; reflexivity |].
  split; [| split; [| split]].
  - repeat constructor.
  - vm_compute. reflexivity.
  - vm_compute. reflexivity.
  - vm_compute. intros H. apply H. reflexivity.
Qed.

(** * Further properties *)

(** ** Cleaning of text *)

Lemma split_nonempty_words s : Forall (fun w => w <> "") (Py.split s).
Proof.
  induction s as [| c r IH]; [constructor |].
  cbn [Py.split]. destruct (Py.isspace c); [exact IH |].
  destruct r as [| d r']; [repeat constructor; discriminate |].
  destruct (Py.isspace d); [constructor; [discriminate | exact IH] |].
  destruct (Py.split (String d r')) as [| w ws];
    [repeat constructor; discriminate |].
  inversion IH; subst. constructor; [discriminate | assumption].
Qed.

Lemma split_cons_word c r :
  Py.isspace c = false -> Py.split (String c r) <> [].
Proof.
  intros Hc. cbn [Py.split]. rewrite Hc.
  destruct r as [| d r']; [discriminate |].
  destruct (Py.isspace d); [discriminate |].
  destruct (Py.split (String d r')); discriminate.
Qed.

Lemma split_cons_space c r :
  Py.isspace c = true -> Py.split (String c r) = Py.split r.
Proof. intros Hc. cbn [Py.split]. now rewrite Hc. Qed.

Lemma split_word_space c d r :
  Py.isspace c = false -> Py.isspace d = true ->
  Py.split (String c (String d r)) = String c "" :: Py.split r.
Proof. intros Hc Hd. cbn [Py.split]. now rewrite Hc, Hd. Qed.

Lemma split_word_word c d r :
  Py.isspace c = false -> Py.isspace d = false ->
  Py.split (String c (String d r))
  = match Py.split (String d r) with
    | w :: ws => String c w :: ws
    | [] => [String c ""]
    end.
Proof. intros Hc Hd. cbn [Py.split]. rewrite Hc, Hd. reflexivity. Qed.

Lemma join_cons_cons sep p q ps :
  Py.join sep (p :: q :: ps) = p +:+ sep +:+ Py.join sep (q :: ps).
Proof. reflexivity. Qed.

Lemma join_nonempty sep w ws : w <> "" -> Py.join sep (w :: ws) <> "".
Proof.
  intros Hw. destruct ws as [| q ws]; [exact Hw |].
  rewrite join_cons_cons. destruct w; [congruence | discriminate].
Qed.

Lemma lstrip_sub_spaces_in_run s :
  Py.lstrip (Py.sub_spaces_go true s) = Py.sub_spaces_go true s.
Proof.
  induction s as [| c r IH]; [reflexivity |].
  cbn [Py.sub_spaces_go]. destruct (Py.isspace c) eqn:Hc; [exact IH |].
  cbn [Py.lstrip]. now rewrite Hc.
Qed.

Lemma rstrip_cons_word c s :
  Py.isspace c = false ->
  Py.rstrip (String c s) = String c (Py.rstrip s).
Proof.
  intros Hc. cbn [Py.rstrip]. rewrite Hc. destruct (Py.rstrip s); reflexivity.
Qed.

Lemma isspace_space : Py.isspace " " = true.
Proof. reflexivity. Qed.

(** Trimming the collapsed text gives the words joined by single
    spaces, in both states of the scan. *)
Lemma strip_sub_spaces_words s :
  Py.rstrip (Py.lstrip (Py.sub_spaces_go true s)) = Py.join " " (Py.split s)
  /\ forall c, Py.isspace c = false ->
       Py.rstrip (String c (Py.sub_spaces_go false s))
       = Py.join " " (Py.split (String c s)).
Proof.
  induction s as [| d r IH]; [split; [reflexivity |] |].
  { intros c Hc. cbn. now rewrite Hc. }
  destruct IH as [IH1 IH2]. split.
  - cbn [Py.sub_spaces_go Py.split]. destruct (Py.isspace d) eqn:Hd.
    + exact IH1.
    + cbn [Py.lstrip]. rewrite Hd. rewrite (IH2 d Hd). cbn [Py.split].
      now rewrite Hd.
  - intros c Hc. rewrite (rstrip_cons_word _ _ Hc).
    cbn [Py.sub_spaces_go]. destruct (Py.isspace d) eqn:Hd.
    + rewrite (split_word_space c d r Hc Hd).
      rewrite lstrip_sub_spaces_in_run in IH1.
      cbn [Py.rstrip]. rewrite IH1, isspace_space.
      pose proof (split_nonempty_words r) as Hw.
      destruct (Py.split r) as [| w ws]; [reflexivity |].
      inversion Hw; subst.
      pose proof (join_nonempty " " w ws ltac:(assumption)) as Hj.
      rewrite join_cons_cons.
      destruct (Py.join " " (w :: ws)); [congruence | reflexivity].
    + rewrite (IH2 d Hd).
      pose proof (split_cons_word d r Hd) as Hne.
      rewrite (split_word_word c d r Hc Hd).
      destruct (Py.split (String d r)) as [| w ws] eqn:E; [congruence |].
      destruct ws; reflexivity.
Qed.

Lemma split_words s : Forall is_word (Py.split s).
Proof.
  induction s as [| c r IH]; [constructor |].
  destruct (Py.isspace c) eqn:Hc; [now rewrite split_cons_space |].
  assert (is_word (String c "")) as Hw1
    by (split; [discriminate | cbn; now rewrite Hc]).
  destruct r as [| d r']; [cbn [Py.split]; rewrite Hc; now constructor |].
  destruct (Py.isspace d) eqn:Hd.
  - rewrite (split_word_space c d r' Hc Hd).
    rewrite (split_cons_space d r' Hd) in IH. now constructor.
  - rewrite (split_word_word c d r' Hc Hd).
    destruct (Py.split (String d r')) as [| w ws]; [now constructor |].
    inversion IH as [| ? ? [Hne Hall] Hws]; subst.
    constructor; [| exact Hws]. split; [discriminate |].
    cbn [all_chars]. now rewrite Hc, Hall.
Qed.

Lemma split_word_app w c t :
  is_word w -> Py.isspace c = true ->
  Py.split (w +:+ String c t) = w :: Py.split t.
Proof.
  intros [Hne Hall] Hc. induction w as [| x w IH]; [congruence |].
  cbn [all_chars] in Hall. apply andb_true_iff in Hall as [Hx Hall].
  apply negb_true_iff in Hx. rewrite append_cons.
  destruct w as [| y w'].
  - rewrite append_nil_l. now apply split_word_space.
  - assert (Py.isspace y = false) as Hy.
    { cbn [all_chars] in Hall. apply andb_true_iff in Hall as [Hy _].
      now apply negb_true_iff in Hy. }
    rewrite append_cons, (split_word_word x y _ Hx Hy), <- append_cons.
    rewrite IH by (discriminate || exact Hall). reflexivity.
Qed.

Lemma split_word w : is_word w -> Py.split w = [w].
Proof.
  intros [Hne Hall]. induction w as [| x w IH]; [congruence |].
  cbn [all_chars] in Hall. apply andb_true_iff in Hall as [Hx Hall].
  apply negb_true_iff in Hx. destruct w as [| y w'].
  - cbn [Py.split]. now rewrite Hx.
  - assert (Py.isspace y = false) as Hy.
    { cbn [all_chars] in Hall. apply andb_true_iff in Hall as [Hy _].
      now apply negb_true_iff in Hy. }
    rewrite (split_word_word x y _ Hx Hy), IH by (discriminate || exact Hall).
    reflexivity.
Qed.

(** Splitting words joined by single spaces gives the words back. *)
Lemma split_join ws : Forall is_word ws -> Py.split (Py.join " " ws) = ws.
Proof.
  induction 1 as [| w ws Hw Hws IH]; [reflexivity |].
  destruct ws as [| q ps]; [now apply split_word |].
  rewrite join_cons_cons.
  change (w +:+ " " +:+ Py.join " " (q :: ps))
    with (w +:+ String " " (Py.join " " (q :: ps))).
  rewrite (split_word_app w " " _ Hw isspace_space), IH. reflexivity.
Qed.

Lemma clean_words (s : string) : clean s = Py.join " " (Py.split s).
Proof.
  unfold clean, Py.strip, Py.sub_spaces.
  destruct s as [| d r]; [reflexivity |].
  destruct (strip_sub_spaces_words r) as [H1 H2].
  cbn [Py.sub_spaces_go]. destruct (Py.isspace d) eqn:Hd.
  - cbn [Py.lstrip]. rewrite isspace_space, H1.
    now rewrite (split_cons_space d r Hd).
  - cbn [Py.lstrip]. rewrite Hd. now apply H2.
Qed.

(** X1: [clean] returns the words of its argument joined by single
    spaces; it keeps the words as they are and cleaning twice changes
    nothing more. *)
Theorem clean_normal_form (text : string) :
  clean text = Py.join " " (Py.split text)
  /\ Py.split (clean text) = Py.split text
  /\ clean (clean text) = clean text.
Proof.
  assert (Py.split (clean text) = Py.split text) as Hs
    by (rewrite clean_words; apply split_join, split_words).
  split; [apply clean_words |]. split; [exact Hs |].
  rewrite (clean_words (clean text)), Hs. symmetry. apply clean_words.
Qed.

Lemma lower_char_class c :
  Py.isspace (Py.lower_char c) = Py.isspace c
  /\ Ascii.eqb (Py.lower_char c) " " = Ascii.eqb c " "
  /\ Py.isupper (Py.lower_char c) = false.
Proof. destruct c as [[] [] [] [] [] [] [] []]; repeat split; reflexivity. Qed.

Lemma upper_char_class c :
  Py.isspace (Py.upper_char c) = Py.isspace c
  /\ Ascii.eqb (Py.upper_char c) " " = Ascii.eqb c " ".
Proof. destruct c as [[] [] [] [] [] [] [] []]; split; reflexivity. Qed.

Lemma spaced_words_lower b s :
  spaced_words b (Py.lower s) = spaced_words b s.
Proof.
  revert b. induction s as [| c r IH]; intros b; [reflexivity |].
  unfold Py.lower in *. cbn [Py.map_chars spaced_words].
  destruct (lower_char_class c) as (-> & -> & _). now rewrite !IH.
Qed.

Lemma single_spaced_capitalize s :
  single_spaced (Py.capitalize s) = single_spaced s.
Proof.
  destruct s as [| c r]; [reflexivity |].
  cbn [Py.capitalize single_spaced spaced_words].
  destruct (upper_char_class c) as (-> & ->). now rewrite !spaced_words_lower.
Qed.

Lemma spaced_words_word_app b w t :
  is_word w -> spaced_words b (w +:+ t) = spaced_words false t.
Proof.
  intros [Hne Hall]. revert b. induction w as [| x w IH]; intros b;
    [congruence |].
  cbn [all_chars] in Hall. apply andb_true_iff in Hall as [Hx Hall].
  apply negb_true_iff in Hx. rewrite append_cons. cbn [spaced_words].
  rewrite Hx. destruct w as [| y w']; [now rewrite append_nil_l |].
  apply IH; [discriminate | exact Hall].
Qed.

Lemma spaced_words_join w ws :
  Forall is_word (w :: ws) -> spaced_words true (Py.join " " (w :: ws)) = true.
Proof.
  revert w. induction ws as [| q ps IH]; intros w Hw.
  - inversion Hw; subst. cbn [Py.join].
    assert (w +:+ "" = w) as E
      by (clear; induction w as [| x w IH];
          [reflexivity | now rewrite append_cons, IH]).
    rewrite <- E. now rewrite spaced_words_word_app.
  - inversion Hw; subst. rewrite join_cons_cons.
    rewrite spaced_words_word_app by assumption.
    change (" " +:+ Py.join " " (q :: ps))
      with (String " " (Py.join " " (q :: ps))).
    cbn [spaced_words]. rewrite isspace_space. cbn. now apply IH.
Qed.

Lemma single_spaced_clean s : single_spaced (clean s) = true.
Proof.
  rewrite clean_words. pose proof (split_words s) as Hw.
  destruct (Py.split s) as [| w ws]; [reflexivity |].
  pose proof (spaced_words_join w ws Hw) as H.
  unfold single_spaced. destruct (Py.join " " (w :: ws)); [reflexivity | exact H].
Qed.

(** A single-spaced string is its words joined by single spaces. *)
Lemma spaced_words_join_split s :
  (spaced_words true s = true -> Py.join " " (Py.split s) = s)
  /\ forall c, Py.isspace c = false -> spaced_words false s = true ->
       Py.join " " (Py.split (String c s)) = String c s.
Proof.
  induction s as [| d r [IH1 IH2]].
  - split; [discriminate |]. intros c Hc _. cbn. now rewrite Hc.
  - split.
    + cbn [spaced_words]. destruct (Py.isspace d) eqn:Hd.
      * rewrite andb_false_r. discriminate.
      * now apply IH2.
    + intros c Hc. cbn [spaced_words]. destruct (Py.isspace d) eqn:Hd.
      * intros H. apply andb_true_iff in H as [H Hr].
        apply andb_true_iff in H as [Hsp _].
        apply Ascii.eqb_eq in Hsp. subst d.
        rewrite (split_word_space c " " r Hc Hd).
        destruct r as [| e r']; [discriminate |].
        assert (Py.isspace e = false) as He.
        { cbn [spaced_words] in Hr. destruct (Py.isspace e); [| reflexivity].
          rewrite andb_false_r in Hr. discriminate. }
        pose proof (split_cons_word e r' He) as Hne.
        specialize (IH1 Hr).
        destruct (Py.split (String e r')) as [| w ws]; [congruence |].
        rewrite join_cons_cons, IH1. reflexivity.
      * intros Hr. specialize (IH2 d Hd Hr).
        rewrite (split_word_word c d r Hc Hd).
        pose proof (split_cons_word d r Hd) as Hne.
        destruct (Py.split (String d r)) as [| w ws]; [congruence |].
        destruct ws as [| q ps].
        -- cbn [Py.join] in *. now rewrite IH2.
        -- rewrite join_cons_cons in *. rewrite append_cons. now rewrite IH2.
Qed.

Lemma single_spaced_join_split s :
  single_spaced s = true -> Py.join " " (Py.split s) = s.
Proof.
  destruct s as [| c r]; [reflexivity |]. apply spaced_words_join_split.
Qed.

Lemma lower_no_upper s :
  all_chars (fun c => negb (Py.isupper c)) (Py.lower s) = true.
Proof.
  induction s as [| c r IH]; [reflexivity |].
  unfold Py.lower in *. cbn [Py.map_chars all_chars].
  destruct (lower_char_class c) as (_ & _ & ->). exact IH.
Qed.

(** X2: what [clean_text] returns is single-spaced: its words joined by
    single spaces, with no other white space, none at either end.  For
    an argument that, when it is a string, is an ASCII string, no
    character after the first is an upper-case letter. *)
Theorem clean_text_single_spaced (v : pyval) :
  single_spaced (clean_text v) = true
  /\ Py.join " " (Py.split (clean_text v)) = clean_text v
  /\ ((forall s, v = VStr s -> isascii s = true) ->
      match clean_text v with
      | EmptyString => True
      | String _ r => all_chars (fun c => negb (Py.isupper c)) r = true
      end).
Proof.
  assert (single_spaced (clean_text v) = true) as H.
  { destruct v; try reflexivity. cbn [clean_text]. unfold clean_str, scrub.
    rewrite single_spaced_capitalize. apply (single_spaced_clean _). }
  split; [exact H |]. split; [now apply single_spaced_join_split |].
  intros _. destruct v; try exact I. cbn [clean_text]. unfold clean_str.
  destruct (Py.strip (scrub s)) as [| c r]; [exact I |].
  cbn [Py.capitalize]. apply lower_no_upper.
Qed.

Lemma clean_text_single_spaced_witness :
  match clean_text (VStr "Here is a  DIODE (see Fig. 2): it Conducts") with
  | EmptyString => True
  | String _ r => all_chars (fun c => negb (Py.isupper c)) r = true
  end.
Proof.
  apply (proj2 (proj2 (clean_text_single_spaced
                         (VStr "Here is a  DIODE (see Fig. 2): it Conducts")))).
  intros s [= <-]. reflexivity.
Defined.

(** ** The dedup key *)

Lemma all_chars_filter f s : all_chars f (Py.filter_chars f s) = true.
Proof.
  induction s as [| c r IH]; [reflexivity |].
  cbn [Py.filter_chars]. destruct (f c) eqn:E; [| exact IH].
  cbn [all_chars]. now rewrite E.
Qed.

Lemma all_chars_lstrip f s :
  all_chars f s = true -> all_chars f (Py.lstrip s) = true.
Proof.
  induction s as [| c r IH]; [reflexivity |]. intros H.
  cbn [Py.lstrip]. destruct (Py.isspace c); [| exact H].
  cbn [all_chars] in H. apply andb_true_iff in H as [_ H]. now apply IH.
Qed.

Lemma all_chars_rstrip f s :
  all_chars f s = true -> all_chars f (Py.rstrip s) = true.
Proof.
  induction s as [| c r IH]; [reflexivity |]. intros H.
  cbn [all_chars] in H. apply andb_true_iff in H as [Hc H].
  specialize (IH H). cbn [Py.rstrip].
  destruct (Py.rstrip r) as [| d r'].
  - destruct (Py.isspace c); [reflexivity |]. cbn. now rewrite Hc.
  - cbn [all_chars] in *. now rewrite Hc, IH.
Qed.

Lemma rstrip_rstrip s : Py.rstrip (Py.rstrip s) = Py.rstrip s.
Proof.
  induction s as [| c r IH]; [reflexivity |].
  cbn [Py.rstrip]. destruct (Py.rstrip r) as [| d r'] eqn:E.
  - destruct (Py.isspace c) eqn:Hc; [reflexivity |]. cbn. now rewrite Hc.
  - cbn [Py.rstrip]. cbn [Py.rstrip] in IH. rewrite IH. reflexivity.
Qed.

Lemma lstrip_rstrip_lstrip s :
  Py.lstrip (Py.rstrip (Py.lstrip s)) = Py.rstrip (Py.lstrip s).
Proof.
  induction s as [| c r IH]; [reflexivity |].
  cbn [Py.lstrip]. destruct (Py.isspace c) eqn:Hc; [exact IH |].
  rewrite (rstrip_cons_word c r Hc). cbn [Py.lstrip]. now rewrite Hc.
Qed.

Lemma strip_strip s : Py.strip (Py.strip s) = Py.strip s.
Proof.
  unfold Py.strip. now rewrite lstrip_rstrip_lstrip, rstrip_rstrip.
Qed.

Lemma key_char_lower c : Py.keep_key_char c = true -> Py.lower_char c = c.
Proof. destruct c as [[] [] [] [] [] [] [] []]; (reflexivity || discriminate). Qed.

Lemma lower_key_chars s :
  all_chars Py.keep_key_char s = true -> Py.lower s = s.
Proof.
  induction s as [| c r IH]; [reflexivity |]. intros H.
  cbn [all_chars] in H. apply andb_true_iff in H as [Hc H].
  unfold Py.lower in *. cbn [Py.map_chars].
  now rewrite (key_char_lower c Hc), IH.
Qed.

Lemma filter_key_chars f s :
  all_chars f s = true -> Py.filter_chars f s = s.
Proof.
  induction s as [| c r IH]; [reflexivity |]. intros H.
  cbn [all_chars] in H. apply andb_true_iff in H as [Hc H].
  cbn [Py.filter_chars]. now rewrite Hc, IH.
Qed.

Lemma normalize_key_chars s : all_chars Py.keep_key_char (normalize s) = true.
Proof.
  unfold normalize, Py.strip, Py.sub_non_key.
  apply all_chars_rstrip, all_chars_lstrip, all_chars_filter.
Qed.

(** X3: a dedup key holds only lower-case letters, digits and spaces,
    with no space at either end, and is its own key. *)
Theorem normalize_canonical (s : string) :
  all_chars Py.keep_key_char (normalize s) = true
  /\ Py.strip (normalize s) = normalize s
  /\ normalize (normalize s) = normalize s.
Proof.
  pose proof (normalize_key_chars s) as Hk.
  split; [exact Hk |].
  assert (Py.strip (normalize s) = normalize s) as Hs
    by (unfold normalize; apply strip_strip).
  split; [exact Hs |].
  unfold normalize at 1. rewrite (lower_key_chars _ Hk).
  unfold Py.sub_non_key. rewrite (filter_key_chars _ _ Hk). exact Hs.
Qed.

Lemma map_chars_app f a b :
  Py.map_chars f (a +:+ b) = Py.map_chars f a +:+ Py.map_chars f b.
Proof.
  induction a as [| c r IH]; [reflexivity |].
  rewrite append_cons. cbn [Py.map_chars]. now rewrite IH, append_cons.
Qed.

Lemma filter_chars_app f a b :
  Py.filter_chars f (a +:+ b) = Py.filter_chars f a +:+ Py.filter_chars f b.
Proof.
  induction a as [| c r IH]; [reflexivity |].
  rewrite append_cons. cbn [Py.filter_chars].
  destruct (f c); now rewrite IH, ?append_cons.
Qed.

Lemma lower_char_idem c : Py.lower_char (Py.lower_char c) = Py.lower_char c.
Proof. destruct c as [[] [] [] [] [] [] [] []]; reflexivity. Qed.

Lemma lower_lower s : Py.lower (Py.lower s) = Py.lower s.
Proof.
  induction s as [| c r IH]; [reflexivity |].
  unfold Py.lower in *. cbn [Py.map_chars]. now rewrite lower_char_idem, IH.
Qed.

(** X4: the dedup key does not see the case of letters, nor any
    character that is not a letter, a digit or a space. *)
Theorem normalize_ignores (a b : string) (c : ascii) :
  Py.keep_key_char (Py.lower_char c) = false ->
  normalize (a +:+ String c b) = normalize (a +:+ b)
  /\ normalize (Py.lower (a +:+ b)) = normalize (a +:+ b).
Proof.
  intros Hc. split.
  - unfold normalize, Py.lower, Py.sub_non_key.
    rewrite !map_chars_app, !filter_chars_app. cbn [Py.map_chars Py.filter_chars].
    now rewrite Hc.
  - unfold normalize. now rewrite lower_lower.
Qed.

Lemma normalize_ignores_witness :
  normalize ("The diode" +:+ String "," " conducts")
  = normalize ("The diode" +:+ " conducts")
  /\ normalize (Py.lower ("The diode" +:+ " conducts"))
     = normalize ("The diode" +:+ " conducts").
Proof. apply (normalize_ignores "The diode" " conducts" ","). reflexivity. Defined.

(** ** More on the explanation assembler *)

Lemma accepted_from_matches seen ms p :
  p ∈ accepted seen ms ->
  exists m, m ∈ ms /\ p = (stage_of m, summary_of m) /\ summary_of m <> "".
Proof.
  revert seen. induction ms as [| m ms IH]; intros seen Hp;
    [inversion Hp |].
  cbn [accepted] in Hp. fold (summary_of m) in Hp. fold (stage_of m) in Hp.
  destruct (String.eqb_spec (summary_of m) "") as [| Hne].
  - destruct (IH _ Hp) as (m' & ? & ?). exists m'. split; [now right | auto].
  - destruct (decide _).
    + destruct (IH _ Hp) as (m' & ? & ?). exists m'. split; [now right | auto].
    + apply elem_of_cons in Hp as [-> | Hp].
      * exists m. split; [left | auto].
      * destruct (IH _ Hp) as (m' & ? & ?). exists m'.
        split; [now right | auto].
Qed.

Lemma accepted_sublist seen ms :
  snd <$> accepted seen ms `sublist_of` summary_of <$> ms.
Proof.
  revert seen. induction ms as [| m ms IH]; intros seen; [reflexivity |].
  cbn [accepted]. rewrite fmap_cons.
  destruct (String.eqb _ ""); [apply sublist_cons, IH |].
  destruct (decide _); [apply sublist_cons, IH |].
  rewrite fmap_cons. apply sublist_skip, IH.
Qed.

Lemma bucket_line_from_match ms st line :
  line ∈ bucket (fst (fill_sections ms)) st ->
  exists m, m ∈ ms /\ summary_of m = line /\ stage_of m = st /\ line <> "".
Proof.
  rewrite fill_sections_bucket. unfold bucket_of. intros H.
  apply list_elem_of_fmap in H as ([st' line'] & -> & H).
  apply list_elem_of_filter in H as [Hst H]. cbn in Hst. subst st'.
  apply accepted_from_matches in H as (m & Hm & [= -> ->] & Hne).
  exists m. auto.
Qed.

Lemma stage_loop_empty max_words sections stages used_words :
  Forall (fun st => bucket sections st = []) stages ->
  stage_loop max_words sections stages used_words = Some [].
Proof.
  induction 1 as [| st stages Hst _ IH]; [reflexivity |].
  cbn [stage_loop]. fold (bucket sections st). now rewrite Hst.
Qed.

(** X5: when every match has an empty cleaned summary (no summary, one
    that is not text, one cleaned away) or a stage outside
    [STAGE_ORDER], the explanation is the fallback sentence, for every
    [time_minutes]. *)
Theorem fallback_without_usable_match (query : string) (time_minutes : Z)
    (ms : list meta) :
  Forall (fun m => summary_of m = "" \/ stage_of m ∉ STAGE_ORDER) ms ->
  assemble query time_minutes ms = Some (fallback query).
Proof.
  intros H. unfold assemble, explanation_sections.
  rewrite stage_loop_empty; [reflexivity |].
  apply Forall_forall. intros st Hst.
  destruct (bucket (fst (fill_sections ms)) st) as [| line lines] eqn:E;
    [reflexivity | exfalso].
  assert (line ∈ bucket (fst (fill_sections ms)) st) as Hin
    by (rewrite E; left).
  apply bucket_line_from_match in Hin as (m & Hm & Hs & Hst' & Hne).
  rewrite Forall_forall in H. destruct (H m Hm) as [He | Hn].
  - congruence.
  - apply Hn. now rewrite Hst'.
Qed.

Lemma fallback_without_usable_match_witness :
  assemble "bjt" 5
    [ Meta (Some "bjt") (Some "characteristics") (Some (VStr "The curves."));
      Meta (Some "bjt") (Some "working") None;
      Meta (Some "bjt") None (Some (VInt 3));
      Meta (Some "bjt") (Some "types") (Some (VStr " (Summary) ")) ]
  = Some (fallback "bjt").
Proof.
  apply fallback_without_usable_match.
  constructor; [| constructor; [| constructor; [| constructor; [| constructor]]]].
  - right. intros H.
    repeat (apply elem_of_cons in H as [H | H]; [discriminate |]).
    inversion H.
  - left. reflexivity.
  - left. reflexivity.
  - left. vm_compute. reflexivity.
Defined.

(** X6: a match whose cleaned summary is empty, or has a key seen in an
    earlier match, changes nothing: the explanation is the one of the
    matches without it. *)
Theorem skipped_match_ignored (query : string) (time_minutes : Z)
    (pre : list meta) (m : meta) (post : list meta) :
  summary_of m = "" \/ normalize (summary_of m) ∈ snd (fill_sections pre) ->
  fill_sections (pre ++ m :: post) = fill_sections (pre ++ post)
  /\ assemble query time_minutes (pre ++ m :: post)
     = assemble query time_minutes (pre ++ post).
Proof.
  intros H.
  assert (fill_sections (pre ++ m :: post) = fill_sections (pre ++ post)) as E.
  { unfold fill_sections in *. rewrite !fold_left_app. cbn [fold_left].
    f_equal. unfold bucket_step. fold (summary_of m).
    destruct H as [-> | H]; [reflexivity |].
    destruct (String.eqb _ ""); [reflexivity |].
    destruct (decide _); [reflexivity | contradiction]. }
  split; [exact E |]. unfold assemble, explanation_sections. now rewrite E.
Qed.

Lemma skipped_match_ignored_witness :
  fill_sections (firstn 1 repeated_summary ++
                 Meta (Some "diode") (Some "definition")
                   (Some (VStr "the DIODE conducts, in one direction!"))
                 :: skipn 2 repeated_summary)
  = fill_sections (firstn 1 repeated_summary ++ skipn 2 repeated_summary)
  /\ assemble "diode" 5
       (firstn 1 repeated_summary ++
        Meta (Some "diode") (Some "definition")
          (Some (VStr "the DIODE conducts, in one direction!"))
        :: skipn 2 repeated_summary)
     = assemble "diode" 5
         (firstn 1 repeated_summary ++ skipn 2 repeated_summary).
Proof.
  apply skipped_match_ignored. right. vm_compute. reflexivity.
Defined.

Lemma bucket_of_sublist seen ms st :
  bucket_of st (accepted seen ms)
  `sublist_of` summary_of <$> filter (fun m => stage_of m = st) ms.
Proof.
  revert seen. induction ms as [| m ms IH]; intros seen; [reflexivity |].
  cbn [accepted]. fold (summary_of m). fold (stage_of m).
  rewrite filter_cons.
  assert (forall s, bucket_of st (accepted s ms) `sublist_of`
            summary_of <$>
              (if decide (stage_of m = st)
               then m :: filter (fun m => stage_of m = st) ms
               else filter (fun m => stage_of m = st) ms)) as Hskip.
  { intros s. destruct (decide _); [| apply IH].
    rewrite fmap_cons. apply sublist_cons, IH. }
  destruct (String.eqb _ ""); [apply Hskip |].
  destruct (decide (_ ∈ _)); [apply Hskip |].
  rewrite bucket_of_cons. destruct (decide (stage_of m = st)); [| apply IH].
  rewrite fmap_cons. apply sublist_skip, IH.
Qed.

Lemma prefix_is_sublist {A : Type} (l1 l2 : list A) :
  l1 `prefix_of` l2 -> l1 `sublist_of` l2.
Proof. intros [k ->]. now apply sublist_inserts_r. Qed.

(** X7: every section stands for a stage of [STAGE_ORDER], and its lines
    are cleaned summaries of matches of that very stage, in the order of
    the matches. *)
Theorem section_lines_of_stage (time_minutes : Z) (ms : list meta)
    (secs : list section) :
  explanation_sections time_minutes ms = Some secs ->
  Forall (fun s =>
            sec_stage s ∈ STAGE_ORDER
            /\ sec_paragraph s
               `sublist_of`
               summary_of <$> filter (fun m => stage_of m = sec_stage s) ms)
         secs.
Proof.
  intros H. unfold explanation_sections in H.
  pose proof (stage_loop_stages _ _ _ _ _ H) as [Hsub _].
  pose proof (stage_loop_paragraphs _ _ _ _ _ H) as Hp.
  rewrite Forall_forall in *. intros s Hs. split.
  - apply (elem_of_submseteq (sec_stage <$> secs));
      [now apply list_elem_of_fmap_2 | now apply sublist_submseteq].
  - destruct (Hp s Hs) as [_ Hpre]. rewrite fill_sections_bucket in Hpre.
    etrans; [apply prefix_is_sublist, Hpre | apply bucket_of_sublist].
Qed.

Lemma section_lines_of_stage_witness :
  Forall (fun s =>
            sec_stage s ∈ STAGE_ORDER
            /\ sec_paragraph s
               `sublist_of`
               summary_of <$>
                 filter (fun m => stage_of m = sec_stage s) stage_missing)
    [ Section_ "definition" "Definition"
        ["A diode is a two-terminal device."];
      Section_ "general" "Additional Notes"
        [": it is used in rectifiers."] ].
Proof.
  apply (section_lines_of_stage 5 stage_missing). vm_compute. reflexivity.
Defined.

Lemma word_count_nonneg s : 0 <= Py.word_count s.
Proof. unfold Py.word_count. lia. Qed.

Lemma take_lines_exhausted budget max_words line rest stage_words used_words :
  max_words <= used_words ->
  take_lines budget max_words (line :: rest) stage_words used_words
  = ([line], used_words + Py.word_count line).
Proof.
  intros H. cbn [take_lines]. pose proof (word_count_nonneg line).
  destruct (Z.geb_spec (used_words + Py.word_count line) max_words); [| lia].
  now rewrite orb_true_r.
Qed.

(** With the budget used up on entry, the loop over the stages emits the
    first line of the first stage that has one, and stops. *)
Lemma stage_loop_exhausted max_words sections stages used_words secs :
  max_words <= used_words ->
  stage_loop max_words sections stages used_words = Some secs ->
  secs = []
  \/ exists s line,
       secs = [s] /\ sec_paragraph s = [line]
       /\ head (bucket sections (sec_stage s)) = Some line.
Proof.
  intros Hmw. revert secs. induction stages as [| stage rest IH]; intros secs H.
  - cbn in H. injection H as <-. now left.
  - apply stage_loop_cons in H
      as [[_ H] | (budget & title & p & used' & Hb & _ & Ht & _ & _ & H)].
    + now apply IH.
    + right. destruct (bucket sections stage) as [| line lines] eqn:E;
        [congruence |].
      rewrite (take_lines_exhausted budget max_words line lines 0 used_words Hmw)
        in Ht.
      injection Ht as <- <-. pose proof (word_count_nonneg line).
      destruct H as [[_ ->] | (Hlt & _)]; [| lia].
      eexists. exists line. split; [reflexivity |]. cbn. now rewrite E.
Qed.

(** X8: for [time_minutes <= 0] the budget is used up from the start:
    the explanation has at most one section, of one line, the first of
    its bucket. *)
Theorem nonpositive_time_one_line (time_minutes : Z) (ms : list meta)
    (secs : list section) :
  time_minutes <= 0 ->
  explanation_sections time_minutes ms = Some secs ->
  secs = []
  \/ exists s line,
       secs = [s] /\ sec_paragraph s = [line]
       /\ head (bucket (fst (fill_sections ms)) (sec_stage s)) = Some line.
Proof.
  intros Ht H. unfold explanation_sections in H.
  assert (time_minutes * WORDS_PER_MIN <= 0) as Hmw
    by (unfold WORDS_PER_MIN; lia).
  apply (stage_loop_exhausted _ _ _ _ _ Hmw H).
Qed.

Lemma nonpositive_time_one_line_witness :
  [ Section_ "definition" "Definition"
      ["A diode is a two-terminal device."] ] = []
  \/ exists s line,
       [ Section_ "definition" "Definition"
           ["A diode is a two-terminal device."] ] = [s]
       /\ sec_paragraph s = [line]
       /\ head (bucket (fst (fill_sections stage_missing)) (sec_stage s))
          = Some line.
Proof.
  apply (nonpositive_time_one_line 0 stage_missing).
  - reflexivity.
  - vm_compute. reflexivity.
Defined.

(** The words of a paragraph stay below the budget of its stage until
    its last line. *)
Lemma take_lines_stage_budget budget max_words lines stage_words used_words :
  let p := fst (take_lines budget max_words lines stage_words used_words) in
  (length p <= 1)%nat
  \/ stage_words + sum_words (removelast p) < budget.
Proof.
  revert stage_words used_words.
  induction lines as [| line rest IH]; intros sw uw; cbn [take_lines].
  - left. cbn. lia.
  - destruct (_ || _) eqn:Hstop; [left; cbn; lia |].
    apply orb_false_iff in Hstop as [Hs _].
    specialize (IH (sw + Py.word_count line) (uw + Py.word_count line)).
    destruct (take_lines _ _ rest _ _) as [p u]. cbn [fst] in *.
    destruct p as [| p0 p]; [left; cbn; lia |]. right.
    change (removelast (line :: p0 :: p)) with (line :: removelast (p0 :: p)).
    cbn [sum_words]. destruct IH as [IH | IH].
    + destruct p; [| cbn in IH; lia]. cbn. lia.
    + lia.
Qed.

(** X9: for every section the budget of its stage is defined, and the
    section has exactly one line, or the lines before its last have
    together fewer words than that budget.  A section of one line says
    nothing of the budget: for [time_minutes = 0] the budget is 0 and
    the one line is there. *)
Theorem section_within_stage_budget (time_minutes : Z) (ms : list meta)
    (secs : list section) :
  explanation_sections time_minutes ms = Some secs ->
  Forall (fun s =>
            exists budget,
              stage_budget (time_minutes * 120) (sec_stage s) = Some budget
              /\ (length (sec_paragraph s) = 1%nat
                  \/ sum_words (removelast (sec_paragraph s)) < budget))
         secs.
Proof.
  unfold explanation_sections. change WORDS_PER_MIN with 120.
  generalize (fst (fill_sections ms)) as sections. generalize 0 as used.
  generalize STAGE_ORDER as stages. intros stages. revert secs.
  induction stages as [| stage rest IH]; intros secs used sections H.
  - cbn in H. injection H as <-. constructor.
  - apply stage_loop_cons in H
      as [[_ H] | (budget & title & p & used' & _ & Hb & Ht & Hp & _ & H)].
    + apply (IH _ _ _ H).
    + assert (exists b, stage_budget (time_minutes * 120) stage = Some b
                /\ (length p = 1%nat \/ sum_words (removelast p) < b)) as Hs.
      { exists budget. split; [exact Hb |].
        pose proof (take_lines_stage_budget budget (time_minutes * 120)
                      (bucket sections stage) 0 used) as Hk.
        rewrite Ht in Hk. cbn [fst] in Hk.
        destruct Hk as [Hk | Hk]; [left | right; lia].
        destruct p as [| p0 [| p1 p]]; [congruence | reflexivity | cbn in Hk; lia]. }
      destruct H as [[_ ->] | (_ & more & H & ->)].
      * repeat constructor. exact Hs.
      * constructor; [exact Hs | apply (IH _ _ _ H)].
Qed.

Lemma section_within_stage_budget_witness :
  Forall (fun s =>
            exists budget,
              stage_budget (1 * 120) (sec_stage s) = Some budget
              /\ (length (sec_paragraph s) = 1%nat
                  \/ sum_words (removelast (sec_paragraph s)) < budget))
    [ Section_ "working" "Working Principle"
        [ "Note 11 has five words"; "Note 12 has five words";
          "Note 13 has five words"; "Note 14 has five words";
          "Note 15 has five words" ] ].
Proof.
  apply (section_within_stage_budget 1
           (staged "working" ["11"; "12"; "13"; "14"; "15"; "16"; "17"])).
  vm_compute. reflexivity.
Defined.

(** ** More on the related-topic ranker *)

Lemma relevance_pass_Forall (P : string -> Prop) query ms ranked seen :
  Forall P ranked ->
  (forall m d, In (m, d) ms -> default "" (m_topic m) <> "" ->
     P (format_topic (default "" (m_topic m)))) ->
  Forall P (fst (relevance_pass query ms ranked seen)).
Proof.
  revert ranked seen. induction ms as [| [m d] ms IH]; intros ranked seen Hr Hms.
  - exact Hr.
  - assert (forall m' d', In (m', d') ms -> default "" (m_topic m') <> "" ->
              P (format_topic (default "" (m_topic m')))) as Hms'
      by (intros; apply (Hms m' d'); [now right | assumption]).
    cbn [relevance_pass].
    destruct (String.eqb_spec (default "" (m_topic m)) "") as [| Ht];
      [now apply IH |].
    destruct (String.eqb _ (Py.lower query)); [now apply IH |].
    assert (Forall P (ranked ++ [format_topic (default "" (m_topic m))]))
      as Hr'.
    { apply Forall_app. split; [exact Hr |]. repeat constructor.
      apply (Hms m d); [now left | exact Ht]. }
    destruct (decide _).
    + destruct (_ <=? _)%nat; [exact Hr | now apply IH].
    + destruct (_ <=? _)%nat; [exact Hr' | now apply IH].
Qed.

Lemma exploration_pass_Forall (P : string -> Prop) query ts ranked seen :
  Forall P ranked ->
  (forall t, t ∈ ts -> P (format_topic t)) ->
  Forall P (fst (exploration_pass query ts ranked seen)).
Proof.
  revert ranked seen. induction ts as [| t ts IH]; intros ranked seen Hr Hts.
  - exact Hr.
  - assert (forall t', t' ∈ ts -> P (format_topic t')) as Hts'
      by (intros; apply Hts; now right).
    assert (Forall P (ranked ++ [format_topic t])) as Hr'.
    { apply Forall_app. split; [exact Hr |]. repeat constructor.
      apply Hts. left. }
    cbn [exploration_pass]. destruct (bool_decide _ && _).
    + destruct (_ <=? _)%nat; [exact Hr' | now apply IH].
    + destruct (_ <=? _)%nat; [exact Hr | now apply IH].
Qed.

Lemma topic_in_set (ms : list meta) m t :
  m ∈ ms -> m_topic m = Some t -> t ∈ topic_set ms.
Proof.
  intros Hm Ht. unfold topic_set.
  apply elem_of_list_to_set, list_elem_of_omap. eauto.
Qed.

(** X10: every related topic is the formatted topic of a match of the
    batch: the ranker invents none. *)
Theorem related_topics_from_matches (shuffle : list string -> list string)
    (query : string) (results : query_result) :
  is_shuffle shuffle ->
  Forall (fun e => exists m t, m ∈ metadatas results
                                /\ m_topic m = Some t /\ e = format_topic t)
         (rank shuffle query results).
Proof.
  intros Hsh. unfold rank.
  set (P := fun e => exists m t, m ∈ metadatas results
                                  /\ m_topic m = Some t /\ e = format_topic t).
  pose proof (relevance_pass_Forall P query
                (combine (metadatas results) (distances results)) [] ∅
                (Forall_nil_2 _)) as H1.
  destruct (relevance_pass _ _ _ _) as [ranked seen]. cbn [fst] in H1.
  apply exploration_pass_Forall.
  - apply H1. intros m d Hin Ht. apply in_combine_l in Hin.
    destruct (m_topic m) as [t |] eqn:E; [| now cbn in Ht].
    exists m, t. split; [now apply list_elem_of_In | auto].
  - intros t Ht. rewrite (Hsh _) in Ht. apply elem_of_elements in Ht.
    unfold topic_set in Ht.
    apply elem_of_list_to_set, list_elem_of_omap in Ht as (m & Hm & E).
    exists m, t. auto.
Qed.

Lemma related_topics_from_matches_witness :
  Forall (fun e => exists m t, m ∈ metadatas blank_topic_result
                                /\ m_topic m = Some t /\ e = format_topic t)
         (rank (@rev string) "diode" blank_topic_result).
Proof.
  apply related_topics_from_matches.
  intros l. symmetry. apply Permutation_rev.
Defined.

Lemma exploration_pass_complete query ts ranked seen :
  rank_inv query ranked seen ->
  (length (fst (exploration_pass query ts ranked seen))
   < MAX_RELATED_TILES)%nat ->
  forall t, t ∈ ts -> Py.lower (format_topic t) <> Py.lower query ->
    format_topic t ∈ fst (exploration_pass query ts ranked seen).
Proof.
  revert ranked seen. induction ts as [| t0 ts IH];
    intros ranked seen Hinv Hlen t Ht Hq; [inversion Ht |].
  cbn [exploration_pass] in *.
  set (cond := bool_decide (format_topic t0 ∉ seen)
               && negb (String.eqb (Py.lower (format_topic t0))
                                   (Py.lower query))) in *.
  set (st := if cond
             then (ranked ++ [format_topic t0], {[format_topic t0]} ∪ seen)
             else (ranked, seen)) in *.
  assert (rank_inv query (fst st) (snd st)) as Hinv'.
  { subst st. destruct cond eqn:Hc; [| exact Hinv]. subst cond.
    apply andb_true_iff in Hc as [Hnin Hne].
    apply bool_decide_eq_true in Hnin. apply negb_true_iff in Hne.
    apply rank_inv_snoc; [exact Hinv | exact Hnin |].
    destruct (String.eqb_spec (Py.lower (format_topic t0)) (Py.lower query));
      [discriminate | assumption]. }
  assert (Py.lower (format_topic t0) <> Py.lower query ->
          format_topic t0 ∈ fst st) as Hhere.
  { intros Hne. subst st. destruct cond eqn:Hc.
    - cbn. apply elem_of_app. right. now left.
    - subst cond. apply andb_false_iff in Hc as [Hc | Hc].
      + apply bool_decide_eq_false in Hc. apply dec_stable in Hc.
        cbn. now apply (inv_seen _ _ _ Hinv).
      + apply negb_false_iff, String.eqb_eq in Hc. contradiction. }
  destruct st as [ranked' seen'] eqn:Est. cbn [fst snd] in *.
  destruct (Nat.leb_spec MAX_RELATED_TILES (length ranked'));
    [cbn in Hlen; lia |].
  destruct (exploration_pass_extends query ts ranked' seen') as [more Hmore].
  apply elem_of_cons in Ht as [-> | Ht].
  - rewrite Hmore. apply elem_of_app. left. now apply Hhere.
  - now apply IH.
Qed.

Lemma related_topics_complete_lemma (shuffle : list string -> list string)
    (query : string) (results : query_result) (m : meta) (t : string) :
  is_shuffle shuffle ->
  (length (rank shuffle query results) < 12)%nat ->
  m ∈ metadatas results -> m_topic m = Some t ->
  Py.lower (format_topic t) <> Py.lower query ->
  format_topic t ∈ rank shuffle query results.
Proof.
  intros Hsh Hlen Hm Ht Hq. unfold rank in *.
  pose proof (relevance_pass_inv query
                (combine (metadatas results) (distances results)) [] ∅
                (rank_inv_nil query)) as Hinv.
  destruct (relevance_pass _ _ _ _) as [ranked seen]. cbn [fst snd] in Hinv.
  apply exploration_pass_complete; [exact Hinv | exact Hlen | | exact Hq].
  rewrite (Hsh _). apply elem_of_elements. now apply (topic_in_set _ m).
Qed.

(** X11: when fewer than 12 topics are returned, none was left out:
    every topic of the batch that is not the query up to case is in the
    list, formatted. *)
Theorem related_topics_complete (shuffle : list string -> list string)
    (query : string) (results : query_result) (m : meta) (t : string) :
  is_shuffle shuffle ->
  (length (rank shuffle query results) < 12)%nat ->
  m ∈ metadatas results -> m_topic m = Some t ->
  Py.lower (format_topic t) <> Py.lower query ->
  format_topic t ∈ rank shuffle query results.
Proof. apply related_topics_complete_lemma. Qed.

Lemma related_topics_complete_witness :
  format_topic "led" ∈ rank (@rev string) "diode" blank_topic_result.
Proof.
  apply (related_topics_complete (@rev string) "diode" blank_topic_result
           (topic_only "led") "led").
  - intros l. symmetry. apply Permutation_rev.
  - vm_compute. lia.
  - apply list_elem_of_In. cbn. tauto.
  - reflexivity.
  - vm_compute. discriminate.
Defined.

(** ** The API layer *)

Lemma rank_sound shuffle query results :
  Forall (fun e => Py.lower e <> Py.lower query) (rank shuffle query results)
  /\ (length (rank shuffle query results) <= 12)%nat
  /\ NoDup (rank shuffle query results).
Proof.
  unfold rank.
  set (ms := combine _ _). set (ts := shuffle _).
  pose proof (relevance_pass_inv query ms [] ∅ (rank_inv_nil query)) as H1.
  pose proof (relevance_pass_length query ms [] ∅) as L1.
  destruct (relevance_pass query ms [] ∅) as [ranked seen]. cbn [fst snd] in *.
  pose proof (exploration_pass_inv query ts ranked seen H1) as [Hnd _ Hq].
  pose proof (exploration_pass_length query ts ranked seen) as L2.
  split; [exact Hq |]. split; [| exact Hnd].
  apply L2. change half_tiles with 6%nat in L1.
  change MAX_RELATED_TILES with 12%nat. cbn in L1. lia.
Qed.

(** X12: a request whose topic is absent or blank, with [time_minutes]
    absent or convertible, is refused with status 400 whatever the index
    holds. *)
Theorem blank_topic_refused
    (collection_query : string -> nat -> query_result)
    (shuffle : list string -> list string)
    (int_of_str : string -> option Z)
    (topic time_minutes : option json) :
  topic = None \/ (exists s, topic = Some (JStr s) /\ Py.strip s = "") ->
  is_Some (py_int int_of_str (default (JInt 5) time_minutes)) ->
  recommend_api collection_query shuffle int_of_str
    (BodyObject topic time_minutes)
  = ApiResponse 400 (Some "Topic is required") None None "" [].
Proof.
  intros Ht [n Hn]. unfold recommend_api.
  assert (py_strip (default (JStr "") topic) = Some "") as ->.
  { destruct Ht as [-> | (s & -> & Hs)]; [reflexivity |]. cbn. now rewrite Hs. }
  rewrite Hn. reflexivity.
Qed.

Lemma blank_topic_refused_witness :
  recommend_api (fun _ _ => eight_topics) (fun l => l) (fun _ => None)
    (BodyObject (Some (JStr (String " " (String "009" " ")))) None)
  = ApiResponse 400 (Some "Topic is required") None None "" [].
Proof.
  apply blank_topic_refused.
  - right. exists (String " " (String "009" " ")). split; reflexivity.
  - cbn. eauto.
Defined.

(** X13: [time_minutes] is converted before the topic is looked at: when
    it does not convert, or when the topic is not a string, the answer is
    status 500, also for a blank topic or a body that is not an
    object. *)
Theorem bad_field_is_server_error
    (collection_query : string -> nat -> query_result)
    (shuffle : list string -> list string)
    (int_of_str : string -> option Z)
    (topic time_minutes : option json) :
  py_int int_of_str (default (JInt 5) time_minutes) = None
  \/ py_strip (default (JStr "") topic) = None ->
  recommend_api collection_query shuffle int_of_str
    (BodyObject topic time_minutes)
  = ApiResponse 500 (Some "Internal server error") None None "" [].
Proof.
  intros [H | H]; unfold recommend_api.
  - destruct (py_strip _); [now rewrite H | reflexivity].
  - now rewrite H.
Qed.

Lemma bad_field_is_server_error_witness :
  recommend_api (fun _ _ => eight_topics) (fun l => l) (fun _ => None)
    (BodyObject None (Some JNull))
  = ApiResponse 500 (Some "Internal server error") None None "" [].
Proof. apply bad_field_is_server_error. left. reflexivity. Defined.

(** X14: what every response satisfies.  The status is 200, 400 or 500.
    Without status 200 there is an error message, an empty explanation
    and no related topic.  With status 200 the topic is the trimmed
    topic string of the request, not empty, and the related topics are
    at most 12, without repetition, none equal to that topic up to
    case. *)
Theorem response_invariant
    (collection_query : string -> nat -> query_result)
    (shuffle : list string -> list string)
    (int_of_str : string -> option Z) (b : body) :
  let r := recommend_api collection_query shuffle int_of_str b in
  (a_status r = 200 \/ a_status r = 400 \/ a_status r = 500)
  /\ (a_status r <> 200 ->
      a_error r <> None /\ a_explanation r = "" /\ a_related_topics r = [])
  /\ (a_status r = 200 ->
      a_error r = None
      /\ exists raw time_minutes,
           b = BodyObject (Some (JStr raw)) time_minutes
           /\ a_topic r = Some (Py.strip raw)
           /\ Py.strip raw <> ""
           /\ Forall (fun e => Py.lower e <> Py.lower (Py.strip raw))
                     (a_related_topics r)
           /\ (length (a_related_topics r) <= 12)%nat
           /\ NoDup (a_related_topics r)).
Proof.
  assert (let r := bad_request in
          (a_status r = 200 \/ a_status r = 400 \/ a_status r = 500)
          /\ (a_status r <> 200 ->
              a_error r <> None /\ a_explanation r = ""
              /\ a_related_topics r = [])) as H400
    by (cbn; repeat split; auto; discriminate).
  assert (let r := server_error in
          (a_status r = 200 \/ a_status r = 400 \/ a_status r = 500)
          /\ (a_status r <> 200 ->
              a_error r <> None /\ a_explanation r = ""
              /\ a_related_topics r = [])) as H500
    by (cbn; repeat split; auto; discriminate).
  cbv zeta in *. unfold recommend_api.
  destruct b as [| v | topic time_minutes];
    try (destruct H500 as [? ?]; repeat split; auto; discriminate).
  destruct (py_strip (default (JStr "") topic)) as [t |] eqn:Et;
    [| destruct H500 as [? ?]; repeat split; auto; discriminate].
  destruct (py_int int_of_str _) as [n |];
    [| destruct H500 as [? ?]; repeat split; auto; discriminate].
  destruct (String.eqb_spec t "") as [| Hne];
    [destruct H400 as [? ?]; repeat split; auto; discriminate |].
  unfold explain.
  destruct (get_explanation collection_query t n) as [explanation |];
    [| destruct H500 as [? ?]; repeat split; auto; discriminate].
  cbn. split; [now left |]. split; [congruence |]. intros _.
  split; [reflexivity |].
  destruct topic as [[| | | | raw | |] |]; cbn in Et; try discriminate;
    injection Et as <-; [| congruence].
  exists raw, time_minutes. split; [reflexivity |]. split; [reflexivity |].
  split; [exact Hne |]. apply rank_sound.
Qed.



(** ** The indexers *)

Lemma first_stage_label rules t :
  first_stage rules t = "general" \/ In (first_stage rules t) (map snd rules).
Proof.
  induction rules as [| [keys stage] rules IH]; [now left |].
  cbn [first_stage map snd]. destruct (any_in keys t).
  - right. now left.
  - destruct IH as [IH | IH]; [now left | right; now right].
Qed.

Lemma any_in_subset keys1 keys2 t :
  (forall k, In k keys1 -> In k keys2) ->
  any_in keys1 t = true -> any_in keys2 t = true.
Proof.
  unfold any_in. intros Hsub H. apply existsb_exists in H as (k & Hk & Hc).
  apply existsb_exists. exists k. auto.
Qed.

(** X16: [detect_stage], in both indexers, answers with one of eleven
    labels: the nine stages of [STAGE_ORDER], or ["introduction"] or
    ["characteristics"], for which the assembler has no section.  It
    answers ["introduction"] exactly for a text that holds, in any
    case, one of "introduction", "overview", "basic idea". *)
Theorem detect_stage_labels (text : string) :
  (ChunkerV12.detect_stage text ∈ STAGE_ORDER
   \/ ChunkerV12.detect_stage text = "introduction"
   \/ ChunkerV12.detect_stage text = "characteristics")
  /\ (ChunkerIncremental.detect_stage text ∈ STAGE_ORDER
      \/ ChunkerIncremental.detect_stage text = "introduction"
      \/ ChunkerIncremental.detect_stage text = "characteristics")
  /\ ("introduction" ∉ STAGE_ORDER) /\ ("characteristics" ∉ STAGE_ORDER)
  /\ (ChunkerV12.detect_stage text = "introduction"
      <-> any_in ["introduction"; "overview"; "basic idea"] (Py.lower text)
          = true)
  /\ (ChunkerIncremental.detect_stage text = "introduction"
      <-> any_in ["introduction"; "overview"; "basic idea"] (Py.lower text)
          = true).
Proof.
  assert (forall rules t,
            Forall (fun l => l ∈ STAGE_ORDER \/ l = "introduction"
                             \/ l = "characteristics") (map snd rules) ->
            first_stage rules t ∈ STAGE_ORDER
            \/ first_stage rules t = "introduction"
            \/ first_stage rules t = "characteristics") as Hlab.
  { intros rules t Hall. destruct (first_stage_label rules t) as [-> | Hin].
    - left. compute_done.
    - rewrite Forall_forall in Hall. apply Hall. now apply list_elem_of_In. }
  assert (forall l : string, l ∈ STAGE_ORDER ->
            l ∈ STAGE_ORDER \/ l = "introduction" \/ l = "characteristics")
    as Hl by auto.
  assert (forall rules t,
            (exists rest, rules = (["introduction"; "overview"; "basic idea"],
                                   "introduction") :: rest
               /\ Forall (fun l => l <> "introduction") (map snd rest)) ->
            first_stage rules t = "introduction"
            <-> any_in ["introduction"; "overview"; "basic idea"] t = true)
    as Hintro.
  { intros rules t (rest & -> & Hrest). cbn [first_stage].
    destruct (any_in _ t); [tauto |]. split; [| discriminate].
    intros E. exfalso. destruct (first_stage_label rest t) as [E' | Hin].
    - rewrite E in E'. discriminate.
    - rewrite Forall_forall in Hrest. apply (Hrest _ (proj2 (list_elem_of_In _ _) Hin)), E. }
  split; [| split; [| split; [| split; [| split]]]].
  - apply Hlab. unfold ChunkerV12.stage_rules, STAGE_ORDER. cbn [map snd].
    repeat (constructor; [first [now (right; left) | now (right; right)
                                | left; compute_done] |]).
    constructor.
  - apply Hlab. unfold ChunkerIncremental.stage_rules, STAGE_ORDER. cbn [map snd].
    repeat (constructor; [first [now (right; left) | now (right; right)
                                | left; compute_done] |]).
    constructor.
  - compute_done.
  - compute_done.
  - apply Hintro. eexists. split; [reflexivity |].
    cbn [map snd]. repeat (constructor; [discriminate |]). constructor.
  - apply Hintro. eexists. split; [reflexivity |].
    cbn [map snd]. repeat (constructor; [discriminate |]). constructor.
Qed.

(** X17: what the incremental indexer takes for junk, the indexer
    v1.3 takes for junk too; and for both a text of fewer than 300
    characters is junk. *)
Theorem junk_filters_agree (text : string) :
  (ChunkerIncremental.is_junk_chunk text = true ->
   ChunkerV12.is_junk_chunk text = true)
  /\ ((String.length text < 300)%nat ->
      ChunkerIncremental.is_junk_chunk text = true
      /\ ChunkerV12.is_junk_chunk text = true).
Proof.
  unfold ChunkerIncremental.is_junk_chunk, ChunkerV12.is_junk_chunk.
  destruct (Nat.ltb_spec (String.length text) 300) as [Hlt | Hge].
  - split; [intros _ | intros _; split; [reflexivity |]];
      destruct (any_in _ _); reflexivity.
  - split; [| lia]. intros H.
    rewrite (any_in_subset ChunkerIncremental.junk ChunkerV12.junk_keywords
               _ ltac:(cbn; tauto) H). reflexivity.
Qed.

(** *** Chunking *)

Lemma chars_substring i n s :
  list_ascii_of_string (String.substring i n s)
  = take n (drop i (list_ascii_of_string s)).
Proof.
  revert i n. induction s as [| c r IH]; intros i n.
  - destruct i, n; reflexivity.
  - destruct i as [| i].
    + destruct n as [| n]; [reflexivity |]. cbn. now rewrite IH.
    + cbn. apply IH.
Qed.

Lemma chars_append a b :
  list_ascii_of_string (a +:+ b)
  = list_ascii_of_string a ++ list_ascii_of_string b.
Proof.
  induction a as [| c r IH]; [reflexivity |].
  rewrite append_cons. cbn. now rewrite IH.
Qed.

Lemma chars_length s : String.length s = length (list_ascii_of_string s).
Proof. induction s as [| c r IH]; [reflexivity | cbn; now rewrite IH]. Qed.

Lemma chars_inj a b :
  list_ascii_of_string a = list_ascii_of_string b -> a = b.
Proof.
  intros H. rewrite <- (string_of_list_ascii_of_string a),
    <- (string_of_list_ascii_of_string b). now rewrite H.
Qed.

Lemma chars_concat ls :
  list_ascii_of_string (String.concat "" ls)
  = concat (map list_ascii_of_string ls).
Proof.
  induction ls as [| x xs IH]; [reflexivity |].
  destruct xs as [| y ys].
  - cbn. now rewrite app_nil_r.
  - change (String.concat "" (x :: y :: ys))
      with (x +:+ "" +:+ String.concat "" (y :: ys)).
    rewrite !chars_append, IH. reflexivity.
Qed.

Lemma pieces_concat {A : Type} (l : list A) n m :
  concat (map (fun k => take n (drop (k * n) l)) (seq 0 m)) = take (m * n) l.
Proof.
  induction m as [| m IH]; [reflexivity |].
  rewrite seq_S, map_app, concat_app, IH. cbn [map concat plus].
  rewrite app_nil_r, take_take_drop. f_equal. lia.
Qed.

Lemma ceil_div_bounds len n :
  (0 < n)%nat ->
  let m := ((len + n - 1) / n)%nat in
  (len <= m * n)%nat /\ ((0 < len)%nat -> (0 < m)%nat /\ ((m - 1) * n < len)%nat)
  /\ (len = 0%nat -> m = 0%nat).
Proof.
  intros Hn m.
  pose proof (Nat.div_mod_eq (len + n - 1) n) as E.
  pose proof (Nat.mod_upper_bound (len + n - 1) n ltac:(lia)) as Hr.
  fold m in E. split; [nia |]. split.
  - intros Hl. assert (0 < m)%nat by nia. split; [assumption | nia].
  - intros ->. subst m. apply Nat.div_small. lia.
Qed.

(** X18: for a positive size, [chunk_text] (in the three indexers) cuts
    the cleaned text into pieces that put together give it back; no
    piece is empty or longer than the size, and every piece but the last
    has exactly the size; a text without a word gives no piece. *)
Theorem chunk_by_partition (text : string) (size : Z) :
  0 < size ->
  exists chunks,
    chunk_by text size = Some chunks
    /\ String.concat "" chunks = clean text
    /\ Forall (fun c => (1 <= String.length c <= Z.to_nat size)%nat) chunks
    /\ (forall k c, (S k < length chunks)%nat -> chunks !! k = Some c ->
          String.length c = Z.to_nat size)
    /\ (chunks = [] <-> Py.split text = []).
Proof.
  intros Hsize. unfold chunk_by, range_from_zero.
  destruct (Z.eqb_spec size 0) as [| _]; [lia |].
  destruct (Z.ltb_spec size 0) as [| _]; [lia |].
  cbn [mbind option_bind]. eexists. split; [reflexivity |].
  set (n := Z.to_nat size). set (cleaned := clean text).
  set (l := list_ascii_of_string cleaned).
  set (m := ((String.length cleaned + n - 1) / n)%nat).
  assert (0 < n)%nat as Hn by (subst n; lia).
  pose proof (ceil_div_bounds (String.length cleaned) n Hn) as (Hup & Hlow & Hz).
  fold m in Hup, Hlow, Hz. rewrite chars_length in Hup, Hlow, Hz. fold l in Hup, Hlow, Hz.
  rewrite map_map.
  assert (forall k, (k < m)%nat ->
            length (take n (drop (k * n) l)) = Nat.min n (length l - k * n)
            /\ (k * n < length l)%nat) as Hlen.
  { intros k Hk. rewrite length_take, length_drop. split; [reflexivity |].
    destruct (length l) eqn:E; [specialize (Hz eq_refl); lia |].
    destruct Hlow as [_ Hlow]; [lia |]. nia. }
  split; [| split; [| split]].
  - apply chars_inj. fold l. rewrite chars_concat, map_map.
    rewrite (map_ext _ (fun k => take n (drop (k * n) l)))
      by (intros k; apply chars_substring).
    rewrite pieces_concat. apply take_ge. exact Hup.
  - apply Forall_forall. intros c Hc. apply list_elem_of_In, in_map_iff in Hc
      as (k & <- & Hk). apply in_seq in Hk.
    rewrite chars_length, chars_substring. fold l.
    destruct (Hlen k ltac:(lia)) as [-> ?]. lia.
  - intros k c Hk Hc. rewrite length_map, length_seq in Hk.
    change (map ?f ?x) with (f <$> x) in Hc.
    rewrite list_lookup_fmap, lookup_seq_lt in Hc by lia.
    cbn in Hc. injection Hc as <-.
    rewrite chars_length, chars_substring. fold l.
    destruct (Hlen k ltac:(lia)) as [-> ?].
    destruct Hlow as [_ Hlow]; [lia |]. nia.
  - assert (Py.split text = [] <-> cleaned = "") as ->.
    { subst cleaned. rewrite clean_words. split; [now intros -> |].
      pose proof (split_nonempty_words text) as Hw.
      destruct (Py.split text) as [| w ws]; [reflexivity |].
      inversion Hw; subst. intros E. exfalso.
      now apply (join_nonempty " " w ws). }
    split.
    + intros E. apply (f_equal (@length _)) in E.
      rewrite length_map, length_seq in E. cbn in E.
      destruct cleaned as [| c r]; [reflexivity | exfalso].
      destruct Hlow as [Hlow _]; [subst l; cbn; lia | fold m in E; lia].
    + intros E. subst l. rewrite E in Hz. cbn in Hz.
      fold m. now rewrite Hz.
Qed.

Lemma chunk_by_partition_witness :
  exists chunks,
    chunk_by " a   diode  conducts " 5 = Some chunks
    /\ String.concat "" chunks = clean " a   diode  conducts "
    /\ Forall (fun c => (1 <= String.length c <= Z.to_nat 5)%nat) chunks
    /\ (forall k c, (S k < length chunks)%nat -> chunks !! k = Some c ->
          String.length c = Z.to_nat 5)
    /\ (chunks = [] <-> Py.split " a   diode  conducts " = []).
Proof. apply chunk_by_partition. reflexivity. Defined.

Example chunk_by_example :
  chunk_by " a   diode  conducts " 5 = Some ["a dio"; "de co"; "nduct"; "s"]
  /\ chunk_by "text" 0 = None
  /\ chunk_by "text" (-3) = Some [].
Proof. vm_compute. repeat split; reflexivity. Qed.

(** ** Topic names *)

Lemma prefix_empty s : String.prefix "" s = true.
Proof. now destruct s. Qed.

Lemma replace_absent old new s :
  old <> "" -> contains old s = false -> Py.replace old new s = s.
Proof.
  intros Hold. unfold Py.replace. destruct old as [| o old']; [congruence |].
  induction s as [| c r IH]; [reflexivity |].
  cbn [contains]. intros H. apply orb_false_iff in H as [Hp Hc].
  cbn [Py.replace_go]. rewrite Hp. now rewrite IH.
Qed.

Lemma prefix_txt_app s :
  String.prefix ".txt" (s +:+ ".txt") = true ->
  s = "" \/ String.prefix ".txt" s = true.
Proof.
  destruct s as [| c1 [| c2 [| c3 [| c4 s]]]];
    rewrite ?append_cons, ?append_nil_l; cbn [String.prefix]; intros H;
    [now left | right ..]; split_chars; try reflexivity; try discriminate;
    try congruence; now destruct s.
Qed.

Lemma prefix_raw_app s :
  String.prefix "raw_" (s +:+ ".txt") = true -> String.prefix "raw_" s = true.
Proof.
  destruct s as [| c1 [| c2 [| c3 [| c4 s]]]];
    rewrite ?append_cons, ?append_nil_l; cbn [String.prefix]; intros H;
    split_chars; try reflexivity; try discriminate; try congruence;
    now destruct s.
Qed.

Lemma contains_raw_app s :
  contains "raw_" s = false -> contains "raw_" (s +:+ ".txt") = false.
Proof.
  induction s as [| c r IH]; [reflexivity |].
  cbn [contains]. intros H. apply orb_false_iff in H as [Hp Hc].
  rewrite append_cons. cbn [contains]. rewrite <- append_cons.
  rewrite (IH Hc), orb_false_r.
  destruct (String.prefix "raw_" (String c r +:+ ".txt")) eqn:E;
    [| reflexivity].
  apply prefix_raw_app in E. congruence.
Qed.

Lemma replace_txt_suffix s :
  contains ".txt" s = false -> Py.replace ".txt" "" (s +:+ ".txt") = s.
Proof.
  unfold Py.replace. induction s as [| c r IH]; [reflexivity |].
  cbn [contains]. intros H. apply orb_false_iff in H as [Hp Hc].
  rewrite append_cons. cbn [Py.replace_go]. rewrite <- append_cons.
  destruct (String.prefix ".txt" (String c r +:+ ".txt")) eqn:E.
  - apply prefix_txt_app in E as [E | E]; [discriminate | congruence].
  - now rewrite IH.
Qed.

Lemma replace_raw_prefix x :
  Py.replace "raw_" "" ("raw_" +:+ x) = Py.replace "raw_" "" x.
Proof.
  unfold Py.replace.
  change ("raw_" +:+ x)
    with (String "r" (String "a" (String "w" (String "_" x)))).
  cbn [Py.replace_go String.prefix].
  repeat (match goal with
          | |- context [ascii_dec ?a ?b] =>
              destruct (ascii_dec a b); [| congruence]
          end).
  rewrite prefix_empty. cbn [String.length Nat.sub Py.replace_go].
  apply append_nil_l.
Qed.

Lemma topic_of_file_name (topic : string) :
  contains "raw_" (Scraper.slug topic) = false ->
  contains ".txt" (Scraper.slug topic) = false ->
  topic_of_file (Scraper.file_name topic) = Scraper.slug topic.
Proof.
  intros Hraw Htxt. unfold topic_of_file, Scraper.file_name.
  set (s := Scraper.slug topic) in *.
  rewrite replace_raw_prefix.
  rewrite (replace_absent "raw_" "" _ ltac:(discriminate)
             (contains_raw_app s Hraw)).
  now apply replace_txt_suffix.
Qed.

Lemma contains_char a c r :
  contains (String a "") (String c r)
  = Ascii.eqb a c || contains (String a "") r.
Proof.
  cbn [contains String.prefix]. destruct (ascii_dec a c) as [-> | Hne].
  - now rewrite prefix_empty, Ascii.eqb_refl.
  - apply Ascii.eqb_neq in Hne. now rewrite Hne.
Qed.

Lemma contains_char_app a x y :
  contains (String a "") (x +:+ y)
  = contains (String a "") x || contains (String a "") y.
Proof.
  induction x as [| c x IH].
  - rewrite append_nil_l. reflexivity.
  - rewrite append_cons, !contains_char, IH. apply orb_assoc.
Qed.

Lemma basename_no_separator path :
  contains "/" path = false -> basename path = path.
Proof. destruct path; [reflexivity |]. cbn [basename]. now intros ->. Qed.

(** The base name of a file of a directory. *)
Lemma basename_in_directory dir name :
  contains "/" name = false -> basename (dir +:+ "/" +:+ name) = name.
Proof.
  intros Hname. induction dir as [| c dir IH].
  - rewrite append_nil_l, append_cons, append_nil_l. cbn [basename].
    rewrite contains_char. cbn [Ascii.eqb Bool.eqb orb].
    now apply basename_no_separator.
  - rewrite append_cons. cbn [basename]. rewrite <- append_cons.
    rewrite contains_char_app, (contains_char_app "/" "/" name).
    change (contains "/" "/") with true. rewrite orb_true_r.
    rewrite append_cons. exact IH.
Qed.

(** X19: the topic an indexer reads off the path to which the scraper
    writes the text of a topic is the scraper's slug of the topic (lower
    case, spaces and hyphens as underscores), provided the slug holds no
    path separator "/" and neither "raw_" nor ".txt". *)
Theorem topic_of_scraped_file (topic : string) :
  contains "/" (Scraper.slug topic) = false ->
  contains "raw_" (Scraper.slug topic) = false ->
  contains ".txt" (Scraper.slug topic) = false ->
  loaded_topic (Scraper.file_path topic) = Scraper.slug topic.
Proof.
  intros Hsep Hraw Htxt. unfold loaded_topic, Scraper.file_path.
  change (Scraper.OUTPUT_DIR +:+ Scraper.file_name topic)
    with ("db/raw" +:+ "/" +:+ Scraper.file_name topic).
  rewrite basename_in_directory; [now apply topic_of_file_name |].
  unfold Scraper.file_name. rewrite !contains_char_app, Hsep. reflexivity.
Qed.

Lemma topic_of_scraped_file_witness :
  loaded_topic (Scraper.file_path "Flip-Flops digital electronics")
  = Scraper.slug "Flip-Flops digital electronics".
Proof. apply topic_of_scraped_file; vm_compute; reflexivity. Defined.

(** Without the provisos the topic is lost: a "raw_" inside the slug is
    removed with the prefix, and of a slug with a separator only the end
    is the base name. *)
Example topic_of_scraped_file_lost :
  Scraper.slug "Draw circuits" = "draw_circuits"
  /\ loaded_topic (Scraper.file_path "Draw circuits") = "dcircuits"
  /\ Scraper.slug "AC/DC converters" = "ac/dc_converters"
  /\ loaded_topic (Scraper.file_path "AC/DC converters") = "dc_converters".
Proof. vm_compute. repeat split; reflexivity. Qed.

Lemma replace_char a b s :
  Py.replace (String a "") (String b "") s
  = Py.map_chars (fun c => if Ascii.eqb c a then b else c) s.
Proof.
  unfold Py.replace. induction s as [| c r IH]; [reflexivity |].
  cbn [Py.replace_go Py.map_chars String.prefix String.length Nat.sub].
  destruct (ascii_dec a c) as [-> | Hne].
  - rewrite Ascii.eqb_refl, IH, prefix_empty. reflexivity.
  - destruct (Ascii.eqb_spec c a) as [-> | _]; [congruence |]. now rewrite IH.
Qed.

Lemma map_chars_map_chars f g s :
  Py.map_chars f (Py.map_chars g s) = Py.map_chars (fun c => f (g c)) s.
Proof.
  induction s as [| c r IH]; [reflexivity |]. cbn. now rewrite IH.
Qed.

Lemma map_chars_ext f g s :
  (forall c, f c = g c) -> Py.map_chars f s = Py.map_chars g s.
Proof.
  intros H. induction s as [| c r IH]; [reflexivity |].
  cbn. now rewrite H, IH.
Qed.

Lemma lower_title_go b s : Py.lower (Py.title_go b s) = Py.lower s.
Proof.
  revert b. induction s as [| c r IH]; intros b; [reflexivity |].
  unfold Py.lower in *. cbn [Py.title_go Py.map_chars]. rewrite IH. f_equal.
  destruct b; destruct c as [[] [] [] [] [] [] [] []]; reflexivity.
Qed.

Lemma tile_char_chain c :
  Py.lower_char
    ((fun c => if Ascii.eqb c "_" then " "%char else c)
       ((fun c => if Ascii.eqb c "-" then "_"%char else c)
          ((fun c => if Ascii.eqb c " " then "_"%char else c)
             (Py.lower_char c))))
  = tile_char c.
Proof. destruct c as [[] [] [] [] [] [] [] []]; reflexivity. Qed.

(** The tile of a scraped topic, up to case. *)
Lemma lower_tile topic :
  Py.lower (format_topic (Scraper.slug topic)) = Py.map_chars tile_char topic.
Proof.
  unfold format_topic, Scraper.slug, Py.title.
  rewrite lower_title_go, !replace_char. unfold Py.lower.
  rewrite !map_chars_map_chars. apply map_chars_ext. intros c.
  apply tile_char_chain.
Qed.

Lemma tile_differs topic :
  all_chars (fun c => negb (Ascii.eqb c "-" || Ascii.eqb c "_")) topic = false ->
  Py.map_chars tile_char topic <> Py.lower topic.
Proof.
  unfold Py.lower. induction topic as [| c r IH]; [discriminate |].
  cbn [all_chars Py.map_chars]. intros H E. injection E as Ec Er.
  apply andb_false_iff in H as [H | H]; [| now apply IH].
  apply negb_false_iff in H. unfold tile_char in Ec. rewrite H in Ec.
  apply orb_true_iff in H as [H | H]; apply Ascii.eqb_eq in H; subst c;
    discriminate.
Qed.

(** X20: a query that is a topic as the scraper has it, an ASCII string
    without hyphen and without underscore, never gets the tile of that
    topic among its related topics. *)
Theorem own_tile_excluded (shuffle : list string -> list string)
    (topic : string) (results : query_result) :
  isascii topic = true ->
  all_chars (fun c => negb (Ascii.eqb c "-" || Ascii.eqb c "_")) topic = true ->
  format_topic (Scraper.slug topic) ∉ rank shuffle topic results.
Proof.
  intros _ Hall Hin.
  destruct (rank_sound shuffle topic results) as [Hq _].
  rewrite Forall_forall in Hq. apply (Hq _ Hin).
  rewrite lower_tile. unfold Py.lower.
  clear -Hall. induction topic as [| c r IH]; [reflexivity |].
  cbn [all_chars] in Hall. apply andb_true_iff in Hall as [Hc Hall].
  cbn [Py.map_chars]. rewrite (IH Hall). f_equal.
  unfold tile_char. apply negb_true_iff in Hc. now rewrite Hc.
Qed.

Lemma own_tile_excluded_witness :
  format_topic (Scraper.slug "MOSFET basics")
  ∉ rank (fun l => l) "MOSFET basics"
       (QueryResult [topic_only "mosfet_basics"; topic_only "led"]
                    [1 # 10; 2 # 10]%Q).
Proof. apply own_tile_excluded; reflexivity. Defined.

(** X21: with a hyphen or an underscore in the topic, the tile differs
    from the query even up to case, and the topic is listed among its
    own related topics whenever a match carries its slug and fewer than
    12 topics are returned. *)
Theorem own_tile_listed (shuffle : list string -> list string)
    (topic : string) (results : query_result) (m : meta) :
  all_chars (fun c => negb (Ascii.eqb c "-" || Ascii.eqb c "_")) topic = false ->
  is_shuffle shuffle ->
  (length (rank shuffle topic results) < 12)%nat ->
  m ∈ metadatas results -> m_topic m = Some (Scraper.slug topic) ->
  format_topic (Scraper.slug topic) ∈ rank shuffle topic results.
Proof.
  intros Hall Hsh Hlen Hm Ht.
  apply (related_topics_complete_lemma shuffle topic results m _ Hsh Hlen Hm Ht).
  rewrite lower_tile. now apply tile_differs.
Qed.

Lemma own_tile_listed_witness :
  format_topic (Scraper.slug "Flip-Flops digital electronics")
  ∈ rank (fun l => l) "Flip-Flops digital electronics"
      (QueryResult [topic_only "flip_flops_digital_electronics";
                    topic_only "led"] [1 # 10; 2 # 10]%Q).
Proof.
  apply (own_tile_listed (fun l => l) "Flip-Flops digital electronics" _
           (topic_only "flip_flops_digital_electronics")).
  - reflexivity.
  - intros l. apply Permutation_refl.
  - vm_compute. lia.
  - left.
  - reflexivity.
Defined.

(** ** What the indexers store *)

Lemma sections_of_one_stage max_words sections stages used_words secs st title :
  NoDup stages ->
  table_get STAGE_TITLES st = Some title ->
  (forall st', st' <> st -> bucket sections st' = []) ->
  stage_loop max_words sections stages used_words = Some secs ->
  secs = [] \/ exists p, secs = [Section_ st title p].
Proof.
  intros Hnd Ht Hb H.
  pose proof (stage_loop_stages _ _ _ _ _ H) as [Hsub Htitle].
  pose proof (stage_loop_paragraphs _ _ _ _ _ H) as Hp.
  assert (Forall (fun s => sec_stage s = st /\ sec_title s = title) secs)
    as Hall.
  { rewrite Forall_forall in *. intros s Hs.
    destruct (Hp s Hs) as [Hne Hpre].
    assert (sec_stage s = st) as E.
    { destruct (decide (sec_stage s = st)) as [| Hn]; [assumption |].
      rewrite (Hb _ Hn) in Hpre. apply prefix_nil_inv in Hpre. congruence. }
    split; [exact E |]. specialize (Htitle s Hs). rewrite E in Htitle.
    congruence. }
  pose proof (NoDup_of_submseteq _ _ (sublist_submseteq _ _ Hsub) Hnd) as Hnd'.
  destruct secs as [| s1 [| s2 secs]]; [now left | right | exfalso].
  - inversion Hall as [| ? ? [E1 E2] _]; subst. destruct s1 as [a b p].
    cbn in *. exists p. reflexivity.
  - inversion Hall as [| ? ? [E1 _] Hall']; subst.
    inversion Hall' as [| ? ? [E2 _] _]; subst.
    rewrite !fmap_cons, E2 in Hnd'. apply NoDup_cons in Hnd' as [Hn _].
    apply Hn. left.
Qed.

(** X22: [chunker.py] stores no stage, so an explanation made of the
    matches it stored has at most one section, "Additional Notes". *)
Theorem v1_1_index_general_only (time_minutes : Z) (ms : list meta)
    (secs : list section) :
  Forall (fun m => exists summarize embeds topic text stored,
                     index_topic_v1_1 summarize embeds topic text
                     = Some stored /\ m ∈ stored) ms ->
  explanation_sections time_minutes ms = Some secs ->
  secs = [] \/ exists p, secs = [Section_ "general" "Additional Notes" p].
Proof.
  intros Hms H. unfold explanation_sections in H.
  apply (sections_of_one_stage _ _ _ _ _ "general" "Additional Notes"
           STAGE_ORDER_NoDup eq_refl) in H; [exact H |].
  intros st Hst.
  destruct (bucket (fst (fill_sections ms)) st) as [| line lines] eqn:E;
    [reflexivity | exfalso].
  assert (line ∈ bucket (fst (fill_sections ms)) st) as Hin
    by (rewrite E; left).
  apply bucket_line_from_match in Hin as (m & Hm & _ & Hst' & _).
  rewrite Forall_forall in Hms.
  destruct (Hms m Hm) as (summarize & embeds & topic & text & stored & Hi & Hin).
  unfold index_topic_v1_1 in Hi.
  destruct (Chunker.chunk_text text) as [parts |]; [| discriminate].
  cbn [mbind option_bind] in Hi. injection Hi as <-.
  apply list_elem_of_omap in Hin as ([i part] & _ & Hmeta). cbn in Hmeta.
  destruct (embeds part); [| discriminate]. injection Hmeta as <-.
  apply Hst. symmetry. exact Hst'.
Qed.

Lemma v1_1_index_general_only_witness :
  [ Section_ "general" "Additional Notes" ["A diode conducts one way."] ] = []
  \/ exists p,
       [ Section_ "general" "Additional Notes" ["A diode conducts one way."] ]
       = [Section_ "general" "Additional Notes" p].
Proof.
  apply (v1_1_index_general_only 5
           [ Meta (Some "diode") None
               (Some (VStr "A diode conducts one way.")) ]).
  - constructor; [| constructor].
    exists (fun _ => "A diode conducts one way."), (fun _ => true),
      "diode", "the diode".
    eexists. split; [vm_compute; reflexivity | left].
  - vm_compute. reflexivity.
Defined.

(** *** The incremental indexer *)

Section IncrementalFacts.

Variable summarize : string -> string -> string.

Lemma index_chunks_topic topic text metas m :
  index_chunks summarize topic text = Some metas -> m ∈ metas ->
  m_topic m = Some topic.
Proof.
  unfold index_chunks. destruct (ChunkerIncremental.chunk_text text 1200);
    [| discriminate].
  cbn [mbind option_bind]. intros [= <-] Hm.
  apply list_elem_of_In, in_map_iff in Hm as (c & <- & _). reflexivity.
Qed.

Lemma existing_topics_app c1 c2 e1 e2 :
  existing_topics c1 = Some e1 -> existing_topics c2 = Some e2 ->
  existing_topics (c1 ++ c2) = Some (e1 ∪ e2).
Proof.
  revert e1. induction c1 as [| m c1 IH]; intros e1 H1 H2.
  - cbn in *. injection H1 as <-. rewrite H2. f_equal.
    now rewrite union_empty_l_L.
  - cbn [existing_topics app] in *.
    destruct (m_topic m) as [t |]; [| discriminate].
    cbn [mbind option_bind] in *.
    destruct (existing_topics c1) as [e |]; [| discriminate].
    cbn [mbind option_bind] in *. injection H1 as <-.
    rewrite (IH e eq_refl H2). cbn. f_equal. apply (assoc_L (∪)).
Qed.

(** The topics of what a run adds: every added topic with a chunk. *)
Lemma add_new_topics existing raw added :
  add_new summarize existing raw = Some added ->
  exists e, existing_topics added = Some e
            /\ (forall topic text metas,
                  In (topic, text) raw -> topic ∉ existing ->
                  index_chunks summarize topic text = Some metas ->
                  metas <> [] -> topic ∈ e).
Proof.
  revert added. induction raw as [| [topic text] raw IH]; intros added H.
  - cbn in H. injection H as <-. exists ∅. split; [reflexivity |].
    intros ? ? ? [].
  - cbn [add_new] in H. destruct (decide (topic ∈ existing)) as [Hin | Hnin].
    + destruct (IH _ H) as (e & He & Hcov). exists e. split; [exact He |].
      intros t x ms [[= <- <-] | Hraw] Hn; [contradiction | now apply (Hcov t x)].
    + destruct (index_chunks summarize topic text) as [new |] eqn:En;
        [| discriminate].
      cbn [mbind option_bind] in H.
      destruct (add_new summarize existing raw) as [more |]; [| discriminate].
      cbn [mbind option_bind] in H. injection H as <-.
      destruct (IH _ eq_refl) as (e & He & Hcov).
      assert (exists en, existing_topics new = Some en
                         /\ (new <> [] -> topic ∈ en)) as (en & Hen & Ht).
      { assert (forall m, m ∈ new -> m_topic m = Some topic) as Hall
          by (intros m Hm; eapply index_chunks_topic; eassumption).
        clear En.
        induction new as [| m new IHn].
        - exists ∅. split; [reflexivity | congruence].
        - destruct IHn as (en & Hen & _);
            [intros m' Hm'; apply Hall; now right |].
          exists ({[topic]} ∪ en). cbn [existing_topics].
          rewrite (Hall m ltac:(left)), Hen. split; [reflexivity |].
          intros _. apply elem_of_union. left. now apply elem_of_singleton. }
      exists (en ∪ e). split; [now apply existing_topics_app |].
      intros t x ms [[= <- <-] | Hraw] Hn Hi Hne.
      * rewrite En in Hi. injection Hi as <-. apply elem_of_union. left. auto.
      * apply elem_of_union. right. now apply (Hcov t x ms).
Qed.

(** Nothing is added for topics that are there or have no chunk. *)
Lemma add_new_nothing existing raw :
  (forall topic text, In (topic, text) raw -> topic ∉ existing ->
     index_chunks summarize topic text = Some []) ->
  add_new summarize existing raw = Some [].
Proof.
  induction raw as [| [topic text] raw IH]; intros H; [reflexivity |].
  cbn [add_new]. destruct (decide _); [apply IH; intros; apply H; auto; now right |].
  rewrite (H topic text ltac:(now left) ltac:(assumption)).
  cbn [mbind option_bind]. rewrite IH by (intros; apply H; auto; now right).
  reflexivity.
Qed.

(** X23: the incremental indexer leaves what is stored as it is and
    appends to it; and a second run on the same raw files adds
    nothing. *)
Theorem incremental_run_twice (collection : list meta)
    (raw : list (string * string)) (after : list meta) :
  run_incremental summarize collection raw = Some after ->
  collection `prefix_of` after
  /\ run_incremental summarize after raw = Some after.
Proof.
  unfold run_incremental.
  destruct (existing_topics collection) as [existing |] eqn:Ee; [| discriminate].
  cbn [mbind option_bind].
  destruct (add_new summarize existing raw) as [added |] eqn:Ea; [| discriminate].
  cbn [mbind option_bind]. intros [= <-]. split; [now exists added |].
  destruct (add_new_topics _ _ _ Ea) as (e & He & Hcov).
  rewrite (existing_topics_app _ _ _ _ Ee He). cbn [mbind option_bind].
  rewrite add_new_nothing; [cbn; now rewrite app_nil_r |].
  intros topic text Hraw Hnin.
  assert (topic ∉ existing) as Hn
    by (intros Hin; apply Hnin, elem_of_union; now left).
  assert (is_Some (index_chunks summarize topic text)) as [metas Hi].
  { unfold index_chunks, ChunkerIncremental.chunk_text.
    unfold chunk_by, range_from_zero. cbn. eauto. }
  rewrite Hi. f_equal. destruct metas as [| m0 metas]; [reflexivity | exfalso].
  apply Hnin. apply elem_of_union. right.
  apply (Hcov topic text (m0 :: metas) Hraw Hn Hi). discriminate.
Qed.

End IncrementalFacts.

Lemma incremental_run_twice_witness :
  [] `prefix_of`
    [ Meta (Some "led") (Some "general") (Some (VStr "Content skipped.")) ]
  /\ run_incremental (fun _ _ => "A summary.")
       [ Meta (Some "led") (Some "general") (Some (VStr "Content skipped.")) ]
       [ ("led", "A light emitting diode.") ]
     = Some
         [ Meta (Some "led") (Some "general") (Some (VStr "Content skipped.")) ].
Proof.
  apply (incremental_run_twice (fun _ _ => "A summary.") []
           [ ("led", "A light emitting diode.") ]).
  vm_compute. reflexivity.
Defined.

(** ** What the ranker computes *)

Lemma tiles_cons query t ts :
  tiles query (t :: ts)
  = if decide (Py.lower (format_topic t) <> Py.lower query)
    then format_topic t :: tiles query ts
    else tiles query ts.
Proof. unfold tiles. rewrite fmap_cons, filter_cons. reflexivity. Qed.

Lemma relevance_pass_spec query ms ranked seen :
  (length ranked < half_tiles)%nat ->
  fst (relevance_pass query ms ranked seen)
  = ranked ++ take (half_tiles - length ranked)
                (first_new seen (tiles query (ranked_topics ms)))
  /\ snd (relevance_pass query ms ranked seen)
     = list_to_set (take (half_tiles - length ranked)
                      (first_new seen (tiles query (ranked_topics ms))))
       ∪ seen.
Proof.
  revert ranked seen. induction ms as [| [m d] ms IH]; intros ranked seen Hlen.
  - cbn. rewrite take_nil, app_nil_r. split; [reflexivity |].
    cbn. now rewrite union_empty_l_L.
  - cbn [relevance_pass]. unfold ranked_topics in *.
    rewrite fmap_cons, filter_cons. cbn [fst].
    destruct (String.eqb_spec (default "" (m_topic m)) "") as [E | Hne].
    + destruct (decide (default "" (m_topic m) <> "")); [contradiction |].
      now apply IH.
    + destruct (decide (default "" (m_topic m) <> "")); [| contradiction].
      rewrite tiles_cons.
      destruct (String.eqb_spec (Py.lower (format_topic (default "" (m_topic m))))
                                (Py.lower query)) as [Eq | Hq].
      * destruct (decide _); [contradiction | now apply IH].
      * destruct (decide (Py.lower _ <> _)); [| contradiction].
        cbn [first_new].
        destruct (decide (format_topic (default "" (m_topic m)) ∈ seen)).
        -- destruct (Nat.leb_spec half_tiles (length ranked)); [lia |].
           now apply IH.
        -- destruct (Nat.leb_spec half_tiles
                       (length (ranked ++ [format_topic (default "" (m_topic m))])))
             as [Hge | Hlt]; rewrite length_app in *; cbn [length] in *.
           ++ cbn [fst snd].
              replace (half_tiles - length ranked)%nat with 1%nat by lia.
              cbn [take]. rewrite take_0. split; [reflexivity |].
              cbn. now rewrite union_empty_r_L.
           ++ destruct (IH (ranked ++ [format_topic (default "" (m_topic m))])
                           ({[format_topic (default "" (m_topic m))]} ∪ seen))
                as [-> ->]; [rewrite length_app; cbn [length]; lia |].
              rewrite length_app. cbn [length].
              replace (half_tiles - length ranked)%nat
                with (S (half_tiles - (length ranked + 1)))%nat by lia.
              cbn [take]. rewrite <- app_assoc. split; [reflexivity |].
              cbn [list_to_set foldr]. 
              rewrite (assoc_L (∪)), (comm_L (∪) (list_to_set _) {[_]}).
              reflexivity.
Qed.

Lemma exploration_pass_spec query ts ranked seen :
  (length ranked < MAX_RELATED_TILES)%nat ->
  fst (exploration_pass query ts ranked seen)
  = ranked ++ take (MAX_RELATED_TILES - length ranked)
                (first_new seen (tiles query ts)).
Proof.
  revert ranked seen. induction ts as [| t ts IH]; intros ranked seen Hlen.
  - cbn. now rewrite take_nil, app_nil_r.
  - cbn [exploration_pass]. rewrite tiles_cons.
    destruct (String.eqb_spec (Py.lower (format_topic t)) (Py.lower query))
      as [Eq | Hq].
    + rewrite andb_false_r.
      destruct (decide (Py.lower _ <> _)); [contradiction |].
      destruct (Nat.leb_spec MAX_RELATED_TILES (length ranked)); [lia |].
      now apply IH.
    + destruct (decide (Py.lower _ <> _)); [| contradiction].
      cbn [first_new negb]. rewrite andb_true_r.
      destruct (decide (format_topic t ∈ seen)) as [Hin | Hnin].
      * rewrite bool_decide_eq_false_2 by tauto.
        destruct (Nat.leb_spec MAX_RELATED_TILES (length ranked)); [lia |].
        now apply IH.
      * rewrite bool_decide_eq_true_2 by assumption.
        destruct (Nat.leb_spec MAX_RELATED_TILES
                    (length (ranked ++ [format_topic t]))) as [Hge | Hlt];
          rewrite length_app in *; cbn [length] in *.
        -- cbn [fst].
           replace (MAX_RELATED_TILES - length ranked)%nat with 1%nat by lia.
           cbn [take]. now rewrite take_0.
        -- rewrite IH by (rewrite length_app; cbn [length]; lia).
           rewrite length_app. cbn [length].
           replace (MAX_RELATED_TILES - length ranked)%nat
             with (S (MAX_RELATED_TILES - (length ranked + 1)))%nat by lia.
           cbn [take]. now rewrite <- app_assoc.
Qed.

(** X24: what [get_related_topics] returns: the first six distinct
    tiles of the matches in index order (topics that are there and not
    empty, the query apart), then the tiles of the shuffled topics not
    listed yet, each once, up to twelve in all. *)
Theorem related_topics_spec
    (collection_query : string -> nat -> query_result)
    (shuffle : list string -> list string) (query : string) :
  let results := collection_query query TOP_K_RELATED_SEARCH in
  let nearest :=
    take 6 (first_new ∅ (tiles query
              (ranked_topics (combine (metadatas results)
                                      (distances results))))) in
  let explored :=
    first_new (list_to_set nearest)
      (tiles query (shuffle (elements (topic_set (metadatas results))))) in
  get_related_topics collection_query shuffle query
  = nearest ++ take (12 - length nearest) explored.
Proof.
  cbv zeta. unfold get_related_topics, rank.
  set (results := collection_query query TOP_K_RELATED_SEARCH).
  set (ms := combine _ _).
  destruct (relevance_pass_spec query ms [] ∅) as [H1 H2];
    [cbn; lia |].
  destruct (relevance_pass query ms [] ∅) as [ranked seen].
  cbn [fst snd app length] in H1, H2. rewrite Nat.sub_0_r in H1, H2.
  change half_tiles with 6%nat in H1, H2.
  rewrite union_empty_r_L in H2. subst ranked seen.
  apply exploration_pass_spec.
  rewrite length_take. change MAX_RELATED_TILES with 12%nat. lia.
Qed.
